(** * flimzy/testify: the assert and require extension packages

    A shallow embedding of the comparison helpers of the repository
    (deep equality with a diff, JSON equivalence, line diff, HTML
    equivalence) and of their require forms, followed by the properties
    proved about them.

    The repository holds several revisions of the same packages:
    - [assert_go]: src/assert/assert.go (DeepEqual only, dumps normalized
      by two regular expressions, differ fed the texts as they are);
    - [assert_part000]: src/unnamed/part_000 (all five checks, the
      regular expressions commented out, differ inputs terminated);
    - [require_part002]: src/unnamed/part_002 (the require forms). *)

From Stdlib Require Import ZArith Lia List.
From Stdlib.Strings Require Import Ascii String Byte HexString.
From Stdlib Require DecimalString.
From stdpp Require Import gmap strings list fin_maps.

#[local] Set Warnings "-register-all".
#[local] Open Scope string_scope.
#[local] Arguments String.append !_ _ / : simpl nomatch.

(** ** Text *)

(** Go strings are byte sequences; [LF], [TAB] and [CR] are the escapes
    of the Go literals. *)
Definition LF : string := String "010" "".
Definition TAB : string := String "009" "".
Definition CR : string := String "013" "".

(** [[]byte]; the nil slice and the empty slice are both [[]]. *)
Abbreviation bytes := (list Byte.byte).

(** The conversions [string(b)] and [[]byte(s)]. *)
Definition string_of_bytes (b : bytes) : string := string_of_list_byte b.
Definition bytes_of_string (s : string) : bytes := list_byte_of_string s.

(** [strings.HasSuffix]: [len(s) >= len(suffix) &&
    s[len(s)-len(suffix):] == suffix]. *)
Definition HasSuffix (s suffix : string) : bool :=
  (String.length suffix <=? String.length s)%nat
  && String.eqb
       (substring (String.length s - String.length suffix)
                  (String.length suffix) s)
       suffix.

(** [strings.SplitAfter(s, sep)] for a one-byte separator: the text is cut
    after every occurrence of [sep]; the last piece is what follows the
    last separator, and is empty when the text ends with one. *)
Fixpoint SplitAfter (s : string) (sep : ascii) : list string :=
  match s with
  | EmptyString => [""]
  | String c s' =>
      if Ascii.eqb c sep then String c "" :: SplitAfter s' sep
      else match SplitAfter s' sep with
           | l :: ls => String c l :: ls
           | [] => [String c ""]
           end
  end.

(** [strings.Join]. *)
Fixpoint Join (l : list string) (sep : string) : string :=
  match l with
  | [] => ""
  | [x] => x
  | x :: l' => x +:+ sep +:+ Join l' sep
  end.

(** ** Go values

    The fragment of Go's values that the checks are applied to, as held
    in an [interface{}]. *)

(** [html.NodeType]. *)
Inductive NodeType :=
  ErrorNode | TextNode | DocumentNode | ElementNode | CommentNode | DoctypeNode.

(** [html.Node], as the tree its sibling and child pointers span. *)
Inductive Node :=
  HNode (Type_ : NodeType) (Data : string) (Attr : list (string * string))
        (children : list Node).

(** [goquery.Selection]. *)
Record Selection := { Nodes : list Node }.

(** A struct that points to a struct of its own type,
    [type Cell struct { Val int; Next *Cell }]: the values through which
    a reference can come back to itself. *)
Record Cell := { Val : Z; Next : option Z }.

Inductive value :=
  | VNil                              (* the nil interface *)
  | VBool (b : bool)
  | VInt (n : Z)
  | VFloat (bits : Z)                 (* float64, by its IEEE-754 bits *)
  | VString (s : string)
  | VBytes (b : bytes)
  | VSlice (l : list value)           (* []interface{} *)
  | VMap (m : gmap string value)      (* map[string]interface{} *)
  | VPtr (addr : Z) (v : value)       (* a non-nil pointer and its pointee *)
  | VFunc (addr : option Z)           (* a func value; None is nil *)
  | VChan (addr : Z)
  | VNode (n : option Node)           (* *html.Node; None is the typed nil *)
  | VSelection (s : option Selection) (* *goquery.Selection *)
  | VLink (mem : gmap Z Cell) (p : option Z)
      (* *Cell: a pointer (None is nil) with the memory that holds the
         cells by their addresses; the chain of [Next] may be cyclic *).

(** The dynamic type, as [%T] prints it. *)
Fixpoint type_name (v : value) : string :=
  match v with
  | VNil => "<nil>"
  | VBool _ => "bool"
  | VInt _ => "int"
  | VFloat _ => "float64"
  | VString _ => "string"
  | VBytes _ => "[]uint8"
  | VSlice _ => "[]interface {}"
  | VMap _ => "map[string]interface {}"
  | VPtr _ v => "*" +:+ type_name v
  | VFunc _ => "func()"
  | VChan _ => "chan int"
  | VNode _ => "*html.Node"
  | VSelection _ => "*goquery.Selection"
  | VLink _ _ => "*Cell"
  end.

(** *** float64 comparison *)

Definition float64_exponent (bits : Z) : Z := Z.land (Z.shiftr bits 52) 2047.
Definition float64_fraction (bits : Z) : Z := Z.land bits (Z.ones 52).

Definition float64_isNaN (bits : Z) : bool :=
  (float64_exponent bits =? 2047)%Z && negb (float64_fraction bits =? 0)%Z.

Definition float64_isZero (bits : Z) : bool := (Z.land bits (Z.ones 63) =? 0)%Z.

(** Go's [==] on float64: a NaN equals nothing, the two zeros are equal. *)
Definition float64_eq (a b : Z) : bool :=
  negb (float64_isNaN a) && negb (float64_isNaN b)
  && ((a =? b)%Z || (float64_isZero a && float64_isZero b)).

(** *** reflect.DeepEqual *)

Definition NodeType_eqb (a b : NodeType) : bool :=
  match a, b with
  | ErrorNode, ErrorNode | TextNode, TextNode | DocumentNode, DocumentNode
  | ElementNode, ElementNode | CommentNode, CommentNode
  | DoctypeNode, DoctypeNode => true
  | _, _ => false
  end.

Definition Attr_eqb (a b : string * string) : bool :=
  String.eqb a.1 b.1 && String.eqb a.2 b.2.

Fixpoint list_eqb {A} (eqb : A -> A -> bool) (l l' : list A) : bool :=
  match l, l' with
  | [], [] => true
  | x :: l, y :: l' => eqb x y && list_eqb eqb l l'
  | _, _ => false
  end.

Fixpoint Node_DeepEqual (a b : Node) {struct a} : bool :=
  match a, b with
  | HNode ta da aa ca, HNode tb db ab cb =>
      NodeType_eqb ta tb && String.eqb da db && list_eqb Attr_eqb aa ab
      && (fix go (l l' : list Node) : bool :=
            match l, l' with
            | [], [] => true
            | x :: l, y :: l' => Node_DeepEqual x y && go l l'
            | _, _ => false
            end) ca cb
  end.

Definition Selection_DeepEqual (a b : Selection) : bool :=
  list_eqb Node_DeepEqual (Nodes a) (Nodes b).

Definition option_DeepEqual {A} (eqb : A -> A -> bool) (a b : option A) : bool :=
  match a, b with
  | None, None => true
  | Some x, Some y => eqb x y
  | _, _ => false
  end.

(** The key under which [reflect.deepValueEqual] records a pair of
    pointers it has started to compare: the two addresses, the smaller
    first. *)
Definition visit (a1 a2 : Z) : Z * Z :=
  if (a2 <? a1)%Z then (a2, a1) else (a1, a2).

Definition visited_mem (v : Z * Z) (visited : list (Z * Z)) : bool :=
  existsb (fun w => (w.1 =? v.1)%Z && (w.2 =? v.2)%Z) visited.

(** [reflect.deepValueEqual] on two pointers to cells: a nil pointer
    equals a nil pointer only; a pair of pointers already under comparison
    is taken as equal, which is what stops the walk along a cycle; a new
    pair is recorded, then two equal pointers are equal, and two different
    ones are equal when their cells are, field by field.  The two values
    of a comparison live in one memory, which each of them carries; an
    address without a cell does not occur in a memory closed under
    [Next].  The fuel counts the pairs that can still be recorded. *)
Fixpoint deepValueEqual (fuel : nat) (mem mem' : gmap Z Cell)
    (visited : list (Z * Z)) (p q : option Z) : option bool :=
  match p, q with
  | None, None => Some true
  | Some a1, Some a2 =>
      let v := visit a1 a2 in
      if visited_mem v visited then Some true
      else if (a1 =? a2)%Z then Some true
      else
        match mem !! a1, mem' !! a2 with
        | Some c1, Some c2 =>
            if (Val c1 =? Val c2)%Z then
              match fuel with
              | O => None
              | S fuel' =>
                  deepValueEqual fuel' mem mem' (v :: visited) (Next c1) (Next c2)
              end
            else Some false
        | _, _ => Some false
        end
  | _, _ => Some false
  end.

(** The addresses of the two memories, and the number of pairs of
    them: no more pairs can be recorded. *)
Definition addresses (mem mem' : gmap Z Cell) : list Z :=
  elements (dom mem ∪ dom mem').

Definition visit_bound (mem mem' : gmap Z Cell) : nat :=
  length (list_prod (addresses mem mem') (addresses mem mem')).

(** [reflect.DeepEqual], following the cases of its documentation: values
    of distinct types are never deeply equal; slices are compared element
    by element; maps have the same length and their corresponding keys map
    to deeply equal values; pointers are equal with [==] or point to deeply
    equal values; func values are deeply equal only if both are nil;
    pointers to cells, which can be cyclic, are compared by
    [deepValueEqual], started with no pair recorded; everything else is
    compared with [==].  A slice or a map is held by
    its contents, as one allocated on its own: the shortcut of
    [reflect.DeepEqual] for two slices on one array, or for one map object
    compared with itself, is not part of this fragment. *)
Fixpoint reflect_DeepEqual (a b : value) {struct a} : bool :=
  match a, b with
  | VNil, VNil => true
  | VBool x, VBool y => Bool.eqb x y
  | VInt x, VInt y => (x =? y)%Z
  | VFloat x, VFloat y => float64_eq x y
  | VString x, VString y => String.eqb x y
  | VBytes x, VBytes y => list_eqb Byte.eqb x y
  | VSlice l, VSlice l' =>
      (fix go (l l' : list value) : bool :=
         match l, l' with
         | [], [] => true
         | x :: l, y :: l' => reflect_DeepEqual x y && go l l'
         | _, _ => false
         end) l l'
  | VMap m, VMap m' =>
      (size m =? size m')%nat
      && map_fold (fun k x acc =>
                     acc && match m' !! k with
                            | Some y => reflect_DeepEqual x y
                            | None => false
                            end) true m
  | VPtr p x, VPtr q y => (p =? q)%Z || reflect_DeepEqual x y
  | VFunc f, VFunc g =>
      match f, g with None, None => true | _, _ => false end
  | VChan p, VChan q => (p =? q)%Z
  | VNode n, VNode n' => option_DeepEqual Node_DeepEqual n n'
  | VSelection s, VSelection s' => option_DeepEqual Selection_DeepEqual s s'
  | VLink m p, VLink m' q =>
      match deepValueEqual (visit_bound m m') m m' [] p q with
      | Some b => b
      | None => false
      end
  | _, _ => false
  end.

(** ** The failure sink and the control flow of a check

    [TestingT] wraps [*testing.T]: [Errorf] records a failure and returns,
    [FailNow] stops the calling test and does not return.  A check is run
    as the list of calls it makes on its sinks together with the way it
    ends: it returns a result, it is halted by [FailNow], or it panics. *)

Record TestingT := { sink_id : nat }.

Inductive event :=
  | EvErrorf (t : TestingT) (format : string) (args : list string)
  | EvFailNow (t : TestingT).

Inductive outcome (A : Type) :=
  | Returns (a : A)
  | Halts
  | Panics (msg : string).
Arguments Returns {A} a.
Arguments Halts {A}.
Arguments Panics {A} msg.

Definition run (A : Type) : Type := list event * outcome A.

Definition ret {A} (a : A) : run A := ([], Returns a).

Definition bind {A B} (c : run A) (k : A -> run B) : run B :=
  match c with
  | (l, Returns a) => let '(l', r) := k a in ((l ++ l')%list, r)
  | (l, Halts) => (l, Halts)
  | (l, Panics msg) => (l, Panics msg)
  end.

Notation "x <- c ;; k" := (bind c (fun x => k))
  (at level 100, c at next level, right associativity).
Notation "c ;;; k" := (bind c (fun _ => k))
  (at level 100, right associativity).

Definition Errorf (t : TestingT) (format : string) (args : list string) : run unit :=
  ([EvErrorf t format args], Returns tt).

Definition FailNow {A} (t : TestingT) : run A := ([EvFailNow t], Halts).

Definition panic {A} (msg : string) : run A := ([], Panics msg).

(** ** The packages the repository imports *)

(** [spew.ConfigState], the fields the code sets. *)
Record ConfigState :=
  { Indent : string; DisableMethods : bool; SortKeys : bool }.

(** [difflib.UnifiedDiff], the fields the code sets. *)
Record UnifiedDiff :=
  { A : list string; FromFile : string; B : list string; ToFile : string;
    Context : Z }.

(** The values [json.Unmarshal] stores in an [interface{}]: nil, bool,
    float64 (never a NaN), string, []interface{} and
    map[string]interface{} of such values. *)
Fixpoint json_generic (v : value) : bool :=
  match v with
  | VNil | VBool _ | VString _ => true
  | VFloat x => negb (float64_isNaN x)
  | VSlice l => forallb json_generic l
  | VMap m => map_fold (fun _ x acc => acc && json_generic x) true m
  | _ => false
  end.

(** An [error] is held by its text. *)
Abbreviation error := string.

(** The imported functions, and the helpers of the package that are not
    part of the sources at hand ([messageFromMsgAndArgs],
    [getWhitespaceString], [indentMessageLines]).  A result [(x, err)] of
    Go is a sum: [inl x] when [err] is nil. *)
Class GoLibrary := {
  spew_Sdump : ConfigState -> value -> string;
  difflib_GetUnifiedDiffString : UnifiedDiff -> string + error;
  json_MarshalIndent : value -> string -> string -> bytes + error;
  json_Unmarshal : bytes -> value + error;
  html_Parse : string -> Node + error;
  html_Render : Node -> string;
  goquery_OuterHtml : option Selection -> string + error;
  assert_CallerInfo : list string;
  (* what testify's own [assert.Fail] hands to [t.Errorf] *)
  testify_Fail_report : string -> list value -> string * list string;
  messageFromMsgAndArgs : list value -> string;
  getWhitespaceString : string;
  indentMessageLines : string -> Z -> string;
}.

(** ** Regular expressions

    The fragment of [regexp] syntax that the two patterns of the package
    use: a pattern is a sequence of literal bytes and of greedy bounded
    repetitions of a byte class. *)
Module regexp.

Inductive atom :=
  | Lit (c : ascii)
  | Rep (cls : ascii -> bool) (lo : nat) (hi : option nat).

Definition Regexp := list atom.

(** A greedy repetition: one more byte of the class is taken while the
    upper bound allows it, and the rest [k] of the pattern is tried
    there first; when that fails the repetition stops here, provided
    the lower bound is reached.  The result is the number of bytes
    matched. *)
Fixpoint match_rep (cls : ascii -> bool) (lo : nat) (hi : option nat)
    (k : list ascii -> option nat) (s : list ascii) : option nat :=
  let stop := match lo with O => k s | S _ => None end in
  match s with
  | c :: s' =>
      if cls c && negb (bool_decide (hi = Some O)) then
        match match_rep cls (Nat.pred lo) (Nat.pred <$> hi) k s' with
        | Some n => Some (S n)
        | None => stop
        end
      else stop
  | [] => stop
  end.

(** The leftmost-first match of the pattern at the head of [s]. *)
Fixpoint match_here (re : Regexp) (s : list ascii) : option nat :=
  match re with
  | [] => Some O
  | Lit c :: re' =>
      match s with
      | c' :: s' => if Ascii.eqb c c' then S <$> match_here re' s' else None
      | [] => None
      end
  | Rep cls lo hi :: re' => match_rep cls lo hi (match_here re') s
  end.

(** The scan of [ReplaceAllString]: [skip] bytes of the current match
    are still to be passed over; otherwise a match at the current
    position is replaced and skipped, and a byte where no match starts is
    copied.  (Both patterns begin with a literal: no match is empty.) *)
Fixpoint replace_from (re : Regexp) (repl : list ascii) (skip : nat)
    (s : list ascii) : list ascii :=
  match s with
  | [] => []
  | c :: s' =>
      match skip with
      | S n => replace_from re repl n s'
      | O =>
          match match_here re s with
          | Some (S n) => (repl ++ replace_from re repl n s')%list
          | _ => c :: replace_from re repl O s'
          end
      end
  end.

Definition ReplaceAllString (re : Regexp) (src repl : string) : string :=
  string_of_list_ascii
    (replace_from re (list_ascii_of_string repl) O (list_ascii_of_string src)).

(** [[0-9]] and [[0-9a-f]]. *)
Definition digit (c : ascii) : bool :=
  let n := nat_of_ascii c in (48 <=? n)%nat && (n <=? 57)%nat.
Definition lower_hex (c : ascii) : bool :=
  let n := nat_of_ascii c in
  digit c || ((97 <=? n)%nat && (n <=? 102)%nat).

Definition lits (s : string) : Regexp := map Lit (list_ascii_of_string s).

End regexp.

(** ** src/assert/assert.go *)
Module assert_go.
Section assert_go.
Context `{GoLibrary}.

(** The embedded [*assert.Assertions] of testify is held by the sink it
    was made for. *)
Record Assertions := { Assertions_ : TestingT; t : TestingT }.

Definition New (t : TestingT) : Assertions :=
  {| Assertions_ := t; t := t |}.

(** [assert.Fail] of testify: one report, and [false]. *)
Definition Fail (t : TestingT) (failureMessage : string)
    (msgAndArgs : list value) : run bool :=
  let '(format, args) := testify_Fail_report failureMessage msgAndArgs in
  Errorf t format args ;;; ret false.

Definition FailDiff (t : TestingT) (failureMessage diff : string)
    (msgAndArgs : list value) : run bool :=
  if String.eqb diff "" then Fail t failureMessage msgAndArgs
  else
    let message := messageFromMsgAndArgs msgAndArgs in
    let errorTrace := Join assert_CallerInfo (LF +:+ CR +:+ TAB +:+ TAB +:+ TAB) in
    let msg :=
      CR +:+ getWhitespaceString +:+ CR +:+ TAB +:+ "Error Trace:" +:+ TAB
      +:+ errorTrace +:+ LF +:+ CR +:+ TAB +:+ "Error:"
      +:+ indentMessageLines failureMessage 2 +:+ LF in
    let msg :=
      if (0 <? String.length diff)%nat
      then msg +:+ CR +:+ TAB +:+ "Diff:" +:+ indentMessageLines diff 2
               +:+ LF +:+ CR
      else msg in
    let msg :=
      if (0 <? String.length message)%nat
      then msg +:+ CR +:+ TAB +:+ "Messages:" +:+ TAB +:+ message
               +:+ LF +:+ CR
      else msg in
    Errorf t msg [] ;;; ret false.

(** [cap=[0-9]+\)] and [\(0x[0-9a-f]{6,10}\)]. *)
Definition capRE : regexp.Regexp :=
  (regexp.lits "cap=" ++ [regexp.Rep regexp.digit 1 None] ++ regexp.lits ")")%list.
Definition capRepl : string := "cap=X".
Definition addRE : regexp.Regexp :=
  (regexp.lits "(0x" ++ [regexp.Rep regexp.lower_hex 6 (Some 10%nat)]
     ++ regexp.lits ")")%list.
Definition addRepl : string := "(0xXXXXXXXXXX)".

(** The [difflib.UnifiedDiff] that [diff] builds. *)
Definition udiff (expected actual : string) : UnifiedDiff :=
  {| A := SplitAfter expected "010";
     FromFile := "expected";
     B := SplitAfter actual "010";
     ToFile := "actual";
     Context := 2 |}.

Definition diff (expected actual : string) : run string :=
  match difflib_GetUnifiedDiffString (udiff expected actual) with
  | inl diff => ret diff
  | inr err => panic ("Error producing diff: " +:+ err)
  end.

Definition scs : ConfigState :=
  {| Indent := "  "; DisableMethods := true; SortKeys := true |}.

(** The passes of [interfaceDiff] over one dump. *)
Definition normalize (dump : string) : string :=
  let dump := regexp.ReplaceAllString capRE dump capRepl in
  regexp.ReplaceAllString addRE dump addRepl.

(** [expString] and [actString] as [interfaceDiff] hands them to
    [diff]. *)
Definition interfaceDiff_texts (expected actual : value) : string * string :=
  let expString := spew_Sdump scs expected in
  let actString := spew_Sdump scs actual in
  let expString := regexp.ReplaceAllString capRE expString capRepl in
  let actString := regexp.ReplaceAllString capRE actString capRepl in
  let expString := regexp.ReplaceAllString addRE expString addRepl in
  let actString := regexp.ReplaceAllString addRE actString addRepl in
  (expString, actString).

Definition interfaceDiff (expected actual : value) : run string :=
  let '(expString, actString) := interfaceDiff_texts expected actual in
  diff expString actString.

Definition DeepEqual (t : TestingT) (expected actual : value)
    (msgAndArgs : list value) : run bool :=
  if reflect_DeepEqual expected actual then ret true
  else
    d <- interfaceDiff expected actual ;;
    FailDiff t "Structs differ" d msgAndArgs.

(** The method takes a sink of its own and does not use it. *)
Definition Assertions_DeepEqual (a : Assertions) (t_ : TestingT)
    (expected actual : value) (msgAndArgs : list value) : run bool :=
  DeepEqual (t a) expected actual msgAndArgs.

End assert_go.
End assert_go.

(** ** src/unnamed/part_000: package assert *)
Module assert_part000.
Section assert_part000.
Context `{GoLibrary}.

Record Assertions := { Assertions_ : TestingT; t : TestingT }.

Definition New (t : TestingT) : Assertions :=
  {| Assertions_ := t; t := t |}.

Definition Fail (t : TestingT) (failureMessage : string)
    (msgAndArgs : list value) : run bool :=
  let message := messageFromMsgAndArgs msgAndArgs in
  let errorTrace := Join assert_CallerInfo (LF +:+ TAB +:+ TAB +:+ TAB) in
  (if (0 <? String.length message)%nat
   then Errorf t
          ("%s" +:+ TAB +:+ "Error Trace:" +:+ TAB +:+ "%s" +:+ LF
           +:+ TAB +:+ "Error:%s" +:+ LF
           +:+ TAB +:+ "Messages:" +:+ TAB +:+ "%s" +:+ LF)
          [getWhitespaceString; errorTrace;
           indentMessageLines failureMessage 2; message]
   else Errorf t
          ("%s" +:+ TAB +:+ "Error Trace:" +:+ TAB +:+ "%s" +:+ LF
           +:+ TAB +:+ "Error:%s" +:+ LF)
          [getWhitespaceString; errorTrace;
           indentMessageLines failureMessage 2]) ;;;
  ret false.

Definition FailDiff (t : TestingT) (failureMessage diff : string)
    (msgAndArgs : list value) : run bool :=
  if String.eqb diff "" then Fail t failureMessage msgAndArgs
  else
    let message := messageFromMsgAndArgs msgAndArgs in
    let errorTrace := Join assert_CallerInfo (LF +:+ TAB +:+ TAB +:+ TAB) in
    let msg :=
      getWhitespaceString +:+ LF +:+ TAB +:+ "Error Trace:" +:+ TAB
      +:+ errorTrace +:+ LF +:+ TAB +:+ "Error:"
      +:+ indentMessageLines failureMessage 2 +:+ LF in
    let msg :=
      if (0 <? String.length diff)%nat
      then msg +:+ TAB +:+ "Diff:" +:+ LF +:+ CR +:+ TAB
               +:+ indentMessageLines diff 3 +:+ LF
      else msg in
    let msg :=
      if (0 <? String.length message)%nat
      then msg +:+ TAB +:+ "Messages:" +:+ TAB +:+ message +:+ LF
      else msg in
    Errorf t msg [] ;;; ret false.

(** The [difflib.UnifiedDiff] that [diff] builds. *)
Definition udiff (expected actual : string) : UnifiedDiff :=
  let expected := if negb (HasSuffix expected LF) then expected +:+ LF else expected in
  let actual := if negb (HasSuffix actual LF) then actual +:+ LF else actual in
  {| A := SplitAfter expected "010";
     FromFile := "expected";
     B := SplitAfter actual "010";
     ToFile := "actual";
     Context := 2 |}.

Definition diff (expected actual : string) : run string :=
  match difflib_GetUnifiedDiffString (udiff expected actual) with
  | inl diff => ret diff
  | inr err => panic ("Error producing diff: " +:+ err)
  end.

Definition scs : ConfigState :=
  {| Indent := "  "; DisableMethods := true; SortKeys := true |}.

(** [expString] and [actString] as [interfaceDiff] hands them to
    [diff]; the four replacements are commented out in this revision. *)
Definition interfaceDiff_texts (expected actual : value) : string * string :=
  let expString := spew_Sdump scs expected in
  let actString := spew_Sdump scs actual in
  (expString, actString).

Definition interfaceDiff (expected actual : value) : run string :=
  let '(expString, actString) := interfaceDiff_texts expected actual in
  diff expString actString.

Definition DeepEqual (t : TestingT) (expected actual : value)
    (msgAndArgs : list value) : run bool :=
  if reflect_DeepEqual expected actual then ret true
  else
    d <- interfaceDiff expected actual ;;
    FailDiff t "Structs differ" d msgAndArgs.

Definition Assertions_DeepEqual (a : Assertions)
    (expected actual : value) (msgAndArgs : list value) : run bool :=
  DeepEqual (t a) expected actual msgAndArgs.

Definition marshalJSON (t : TestingT) (i : value)
    (msgAndArgs : list value) : run bytes :=
  match json_MarshalIndent i "" "    " with
  | inl output => ret output
  | inr err =>
      (* [MarshalIndent] returns a nil output with its error *)
      Fail t ("Error marshaling JSON: " +:+ err +:+ LF) msgAndArgs ;;;
      ret []
  end.

(** [var e interface{}; json.Unmarshal(data, &e)] with the error
    dropped: [e] stays nil when the data does not decode. *)
Definition decoded (data : bytes) : value :=
  match json_Unmarshal data with
  | inl v => v
  | inr _ => VNil
  end.

Definition DeepEqualJSON (t : TestingT) (expected actual : value)
    (msgAndArgs : list value) : run bool :=
  expectedJSON <- marshalJSON t expected msgAndArgs ;;
  actualJSON <- marshalJSON t actual msgAndArgs ;;
  let e := decoded expectedJSON in
  let a := decoded actualJSON in
  if reflect_DeepEqual e a then ret true
  else
    d <- diff (string_of_bytes expectedJSON) (string_of_bytes actualJSON) ;;
    FailDiff t "JSON representations differ" d msgAndArgs.

Definition Assertions_DeepEqualJSON (a : Assertions)
    (expected actual : value) (msgAndArgs : list value) : run bool :=
  DeepEqualJSON (t a) expected actual msgAndArgs.

Definition MarshalsToJSON (t : TestingT) (expected : bytes) (actual : value)
    (msgAndArgs : list value) : run bool :=
  actualJSON <- marshalJSON t actual msgAndArgs ;;
  match json_Unmarshal expected with
  | inr err => Fail t "Error unmarshaling expected JSON string" msgAndArgs
  | inl e =>
      let a := decoded actualJSON in
      if reflect_DeepEqual e a then ret true
      else
        d <- diff (string_of_bytes expected) (string_of_bytes actualJSON) ;;
        FailDiff t "JSON representations differ" d msgAndArgs
  end.

Definition Assertions_MarshalsToJSON (a : Assertions)
    (expected : bytes) (actual : value) (msgAndArgs : list value) : run bool :=
  MarshalsToJSON (t a) expected actual msgAndArgs.

Definition LinesEqual (t : TestingT) (expected actual : string)
    (msgAndArgs : list value) : run bool :=
  if String.eqb expected actual then ret true
  else
    d <- diff expected actual ;;
    FailDiff t "Strings differ" d msgAndArgs.

Definition Assertions_LinesEqual (a : Assertions)
    (expected actual : string) (msgAndArgs : list value) : run bool :=
  LinesEqual (t a) expected actual msgAndArgs.

(** [html.Parse] on a reader of the text. *)
Definition Parse (s : string) : option Node + error :=
  match html_Parse s with
  | inl n => inl (Some n)
  | inr err => inr err
  end.

Definition toHTMLNode (i : value) : option Node + error :=
  match i with
  | VNode n => inl n
  | VString s => Parse s
  | VBytes b => Parse (string_of_bytes b)
  | VSelection s =>
      match goquery_OuterHtml s with
      | inr err => inr ("failed to get outer html" +:+ ": " +:+ err)
      | inl str => Parse str
      end
  | _ => inr ("unknown type: " +:+ type_name i)
  end.

(** [html.Render] into a fresh buffer; it reads the fields of its node,
    so a nil node is a nil dereference. *)
Definition Render (n : option Node) : run string :=
  match n with
  | Some n => ret (html_Render n)
  | None => panic "runtime error: invalid memory address or nil pointer dereference"
  end.

Definition HTMLEqual (t : TestingT) (expected actual : value)
    (msgAndArgs : list value) : run bool :=
  expDoc <- match toHTMLNode expected with
            | inl doc => ret doc
            | inr err =>
                Errorf t "invalid expected document: %s" [err] ;;; FailNow t
            end ;;
  actDoc <- match toHTMLNode actual with
            | inl doc => ret doc
            | inr err =>
                Errorf t "invalid actual document: %s" [err] ;;; FailNow t
            end ;;
  if negb (reflect_DeepEqual (VNode expDoc) (VNode actDoc)) then
    expBuf <- Render expDoc ;;
    actBuf <- Render actDoc ;;
    d <- diff expBuf actBuf ;;
    FailDiff t "HTML differs" d msgAndArgs
  else ret true.

End assert_part000.
End assert_part000.

(** ** src/unnamed/part_002: package require *)
Module require_part002.
Section require_part002.
Context `{GoLibrary}.

(** The embedded [*require.Assertions] of testify is held by the sink
    it was made for. *)
Record Assertions := { Assertions_ : TestingT; t : TestingT }.

Definition New (t : TestingT) : Assertions :=
  let require := t in
  {| Assertions_ := require; t := t |}.

Definition DeepEqual (t : TestingT) (expected actual : value)
    (msgAndArgs : list value) : run unit :=
  ok <- assert_part000.DeepEqual t expected actual msgAndArgs ;;
  if negb ok then FailNow t else ret tt.

Definition Assertions_DeepEqual (a : Assertions)
    (expected actual : value) (msgAndArgs : list value) : run unit :=
  DeepEqual (t a) expected actual msgAndArgs.

Definition DeepEqualJSON (t : TestingT) (expected actual : value)
    (msgAndArgs : list value) : run unit :=
  ok <- assert_part000.DeepEqualJSON t expected actual msgAndArgs ;;
  if negb ok then FailNow t else ret tt.

Definition Assertions_DeepEqualJSON (a : Assertions)
    (expected actual : value) (msgAndArgs : list value) : run unit :=
  DeepEqualJSON (t a) expected actual msgAndArgs.

Definition MarshalsToJSON (t : TestingT) (expected : bytes) (actual : value)
    (msgAndArgs : list value) : run unit :=
  ok <- assert_part000.MarshalsToJSON t expected actual msgAndArgs ;;
  if negb ok then FailNow t else ret tt.

Definition Assertions_MarshalsToJSON (a : Assertions)
    (expected : bytes) (actual : value) (msgAndArgs : list value) : run unit :=
  MarshalsToJSON (t a) expected actual msgAndArgs.

Definition LinesEqual (t : TestingT) (expected actual : string)
    (msgAndArgs : list value) : run unit :=
  ok <- assert_part000.LinesEqual t expected actual msgAndArgs ;;
  if negb ok then FailNow t else ret tt.

Definition Assertions_LinesEqual (a : Assertions)
    (expected actual : string) (msgAndArgs : list value) : run unit :=
  LinesEqual (t a) expected actual msgAndArgs.

Definition HTMLEqual (t : TestingT) (expected actual : value)
    (msgAndArgs : list value) : run unit :=
  ok <- assert_part000.HTMLEqual t expected actual msgAndArgs ;;
  if negb ok then FailNow t else ret tt.

Definition Assertions_HTMLEqual (a : Assertions)
    (expected actual : value) (msgAndArgs : list value) : run unit :=
  HTMLEqual (t a) expected actual msgAndArgs.

End require_part002.
End require_part002.

(** ** A stand-in for the imported packages

    A small instance of [GoLibrary], used to run the checks on concrete
    values.  It agrees with the packages on the values the examples
    use: dumps show the addresses of pointers, channels have no JSON
    encoding, the decoder knows a handful of texts. *)
Module standin.

Definition decimal (n : Z) : string :=
  DecimalString.NilZero.string_of_int (Z.to_int n).

Definition quote (s : string) : string :=
  String "034" s +:+ String "034" "".

(** Dumps in the manner of [spew]: the type in parentheses, then the
    value; a pointer shows its address before its pointee. *)
Fixpoint dump (v : value) : string :=
  match v with
  | VNil => "(interface {}) <nil>"
  | VBool b => "(bool) " +:+ (if b then "true" else "false")
  | VInt n => "(int) " +:+ decimal n
  | VFloat bits =>
      "(float64) " +:+ (if float64_isNaN bits then "NaN" else HexString.of_Z bits)
  | VString s =>
      "(string) (len=" +:+ decimal (Z.of_nat (String.length s)) +:+ ") " +:+ quote s
  | VBytes b =>
      "([]uint8) (len=" +:+ decimal (Z.of_nat (List.length b)) +:+ " cap="
      +:+ decimal (Z.of_nat (List.length b)) +:+ ")"
  | VSlice l =>
      "([]interface {}) (len=" +:+ decimal (Z.of_nat (List.length l)) +:+ " cap="
      +:+ decimal (Z.of_nat (List.length l)) +:+ ") {"
      +:+ fold_right (fun x acc => dump x +:+ "," +:+ acc) "" l +:+ "}"
  | VMap m =>
      "(map[string]interface {}) (len=" +:+ decimal (Z.of_nat (size m)) +:+ ") {"
      +:+ map_fold (fun k x acc => acc +:+ quote k +:+ ": " +:+ dump x +:+ ",") "" m
      +:+ "}"
  | VPtr addr x =>
      "(" +:+ type_name v +:+ ")(" +:+ HexString.of_Z addr +:+ ")(" +:+ dump x +:+ ")"
  | VFunc None => "(func()) <nil>"
  | VFunc (Some addr) => "(func()) " +:+ HexString.of_Z addr
  | VChan addr => "(chan int) " +:+ HexString.of_Z addr
  | VNode None => "(*html.Node)(<nil>)"
  | VNode (Some _) => "(*html.Node)({})"
  | VSelection None => "(*goquery.Selection)(<nil>)"
  | VSelection (Some _) => "(*goquery.Selection)({})"
  | VLink _ None => "(*Cell)(<nil>)"
  | VLink _ (Some addr) => "(*Cell)(" +:+ HexString.of_Z addr +:+ ")"
  end.

Definition Sdump (cfg : ConfigState) (v : value) : string := dump v +:+ LF.

(** A whole-text diff: no output for equal texts, otherwise the two
    labels, then the lines of one side and of the other. *)
Definition GetUnifiedDiffString (d : UnifiedDiff) : string + error :=
  if list_eqb String.eqb (A d) (B d) then inl ""
  else inl ("--- " +:+ FromFile d +:+ LF +:+ "+++ " +:+ ToFile d +:+ LF
            +:+ fold_right (fun x acc => "-" +:+ x +:+ acc) "" (A d)
            +:+ fold_right (fun x acc => "+" +:+ x +:+ acc) "" (B d)).

(** The encoder: scalars, slices and maps; a channel or a func has no
    encoding. *)
Fixpoint encode (v : value) : string + error :=
  match v with
  | VNil => inl "null"
  | VBool b => inl (if b then "true" else "false")
  | VInt n => inl (decimal n)
  | VString s => inl (quote s)
  | VSlice l =>
      match fold_right (fun x acc =>
                          match encode x, acc with
                          | inl s, inl r => inl (s :: r)
                          | inr e, _ => inr e
                          | _, inr e => inr e
                          end) (inl []) l with
      | inl parts => inl ("[" +:+ Join parts "," +:+ "]")
      | inr e => inr e
      end
  | VMap m =>
      match map_fold (fun k x acc =>
                        match acc, encode x with
                        | inl r, inl s => inl (r ++ [quote k +:+ ":" +:+ s])%list
                        | inr e, _ => inr e
                        | _, inr e => inr e
                        end) (inl []) m with
      | inl parts => inl ("{" +:+ Join parts "," +:+ "}")
      | inr e => inr e
      end
  | VPtr _ x => encode x
  | _ => inr ("json: unsupported type: " +:+ type_name v)
  end.

Definition MarshalIndent (v : value) (prefix indent : string) : bytes + error :=
  match encode v with
  | inl s => inl (bytes_of_string s)
  | inr e => inr e
  end.

(** The float64 values 1 and 2. *)
Definition one : Z := 0x3FF0000000000000.
Definition two : Z := 0x4000000000000000.

(** The texts the decoder knows, with the generic form of each. *)
Definition known_texts : list (string * value) :=
  [ ("null", VNil);
    ("true", VBool true);
    ("false", VBool false);
    ("1", VFloat one);
    ("2", VFloat two);
    ("[1,2]", VSlice [VFloat one; VFloat two]);
    (match encode (VMap (<["a" := VInt 1]> (<["b" := VInt 2]> ∅))) with
     | inl s => s
     | inr _ => "{}"
     end,
     VMap (<["a" := VFloat one]> (<["b" := VFloat two]> ∅))) ].

Fixpoint lookup_text (s : string) (l : list (string * value)) : option value :=
  match l with
  | [] => None
  | (k, v) :: l' => if String.eqb s k then Some v else lookup_text s l'
  end.

Definition Unmarshal (data : bytes) : value + error :=
  match data with
  | [] => inr "unexpected end of JSON input"
  | _ =>
      match lookup_text (string_of_bytes data) known_texts with
      | Some v => if json_generic v then inl v else inr "json: not a generic value"
      | None => inr "invalid character looking for beginning of value"
      end
  end.

(** Markup is kept as one text node under a document node. *)
Definition Parse (s : string) : Node + error :=
  inl (HNode DocumentNode "" [] [HNode TextNode s [] []]).

Fixpoint Render (n : Node) : string :=
  match n with
  | HNode _ data _ children =>
      data +:+ fold_right (fun c acc => Render c +:+ acc) "" children
  end.

Definition OuterHtml (s : option Selection) : string + error :=
  match s with
  | None => inr "nil selection"
  | Some sel =>
      match Nodes sel with
      | [] => inl ""
      | n :: _ => inl (Render n)
      end
  end.

Definition lib : GoLibrary := {|
  spew_Sdump := Sdump;
  difflib_GetUnifiedDiffString := GetUnifiedDiffString;
  json_MarshalIndent := MarshalIndent;
  json_Unmarshal := Unmarshal;
  html_Parse := Parse;
  html_Render := Render;
  goquery_OuterHtml := OuterHtml;
  assert_CallerInfo := ["assert_test.go:10"];
  testify_Fail_report := fun failureMessage _ => ("%s", [failureMessage]);
  messageFromMsgAndArgs :=
    fun msgAndArgs => match msgAndArgs with VString s :: _ => s | _ => "" end;
  getWhitespaceString := "";
  indentMessageLines := fun message tabs => TAB +:+ message;
|}.

End standin.

(** ** Vocabulary of the properties *)

(** [sub] occurs in [s]. *)
Definition contains (s sub : string) : Prop :=
  exists p q, s = p +:+ sub +:+ q.

(** The call [e] reports a failure on the sink [t] whose text carries the
    description, indented as the failure reporter indents it. *)
Definition reports_failure `{GoLibrary} (t : TestingT) (description : string)
    (e : event) : Prop :=
  match e with
  | EvErrorf t' format args =>
      t' = t /\ (In (indentMessageLines description 2) args
                 \/ contains format (indentMessageLines description 2))
  | EvFailNow _ => False
  end.

(** The map that holds the pairs, inserted one after the other (the last
    pair of the list first). *)
Definition map_of (pairs : list (string * value)) : value :=
  VMap (list_to_map pairs).


(** The values that [reflect.DeepEqual] finds equal to themselves: a NaN
    is not, nor is a func value other than nil; a pointer always is, since
    it is compared with [==] first. *)
Fixpoint deep_reflexive (v : value) : bool :=
  match v with
  | VFloat x => negb (float64_isNaN x)
  | VFunc f => match f with None => true | Some _ => false end
  | VSlice l => forallb deep_reflexive l
  | VMap m => map_fold (fun _ x acc => acc && deep_reflexive x) true m
  | _ => true
  end.

(** The number of constructors of a value, the measure of the inductions
    on values. *)
Fixpoint vsize (v : value) : nat :=
  match v with
  | VSlice l => S (fold_right (fun x n => vsize x + n) 0 l)
  | VMap m => S (map_fold (fun _ x n => vsize x + n) 0 m)
  | VPtr _ x => S (vsize x)
  | _ => 1
  end.

(** The text ends with a line feed. *)
Fixpoint ends_with_LF (s : string) : bool :=
  match s with
  | EmptyString => false
  | String c EmptyString => Ascii.eqb c "010"
  | String _ s' => ends_with_LF s'
  end.

(** The differ's normalization, in the words of its description: a text
    that lacks a trailing line feed is given one, a text that has one is
    left as it is. *)
Definition spec_terminate (s : string) : string :=
  if ends_with_LF s then s else s +:+ LF.

(** The request the differ is described to make: both texts terminated,
    split into lines that keep their line feed, two lines of context, the
    sides labelled expected and actual. *)
Definition spec_udiff (expected actual : string) : UnifiedDiff :=
  {| A := SplitAfter (spec_terminate expected) "010";
     FromFile := "expected";
     B := SplitAfter (spec_terminate actual) "010";
     ToFile := "actual";
     Context := 2 |}.

(** A line that keeps its terminator: it ends with the separator and
    holds no other. *)
Fixpoint terminated_line (sep : ascii) (l : string) : bool :=
  match l with
  | EmptyString => false
  | String c EmptyString => Ascii.eqb c sep
  | String c l' => negb (Ascii.eqb c sep) && terminated_line sep l'
  end.

(** A text without the separator. *)
Fixpoint free_of (sep : ascii) (l : string) : bool :=
  match l with
  | EmptyString => true
  | String c l' => negb (Ascii.eqb c sep) && free_of sep l'
  end.

(** ** Values of the examples *)

Definition the_test : TestingT := {| sink_id := 0 |}.

(** A channel, as [make(chan int)] gives one. *)
Definition a_chan : value := VChan 0xc000012345.

(** A func value other than nil, and a NaN. *)
Definition a_func : value := VFunc (Some 0x4a5b60%Z).
Definition a_NaN : value := VFloat 0x7FF8000000000001.

(** Two pointers to a NaN, at two addresses: they are not deeply equal,
    and their dumps differ in the address only. *)
Definition ptr_one : value := VPtr 0xc000012345 a_NaN.
Definition ptr_two : value := VPtr 0xc000067890 a_NaN.

(** Two rings of two cells in one memory, with the same integers: each
    is cyclic, and they share no cell. *)
Definition ring_mem : gmap Z Cell :=
  <[1%Z := {| Val := 5; Next := Some 2%Z |}]>
    (<[2%Z := {| Val := 6; Next := Some 1%Z |}]>
       (<[3%Z := {| Val := 5; Next := Some 4%Z |}]>
          (<[4%Z := {| Val := 6; Next := Some 3%Z |}]> ∅))).
Definition ring_one : value := VLink ring_mem (Some 1%Z).
Definition ring_two : value := VLink ring_mem (Some 3%Z).

(** The map {"a": a channel, "b": 2}, built in the two orders. *)
Definition chan_map_ab : value := map_of [("a", a_chan); ("b", VInt 2)].
Definition chan_map_ba : value := map_of [("b", VInt 2); ("a", a_chan)].

(** The map {"a":1,"b":2}, built in the two orders. *)
Definition map_ab : value := map_of [("a", VInt 1); ("b", VInt 2)].
Definition map_ba : value := map_of [("b", VInt 2); ("a", VInt 1)].

(** ** Volatile annotations of a dump *)

(** The bytes of a text. *)
Definition chars (s : string) : list ascii := list_ascii_of_string s.

(** A capacity annotation is [cap=] followed by one digit or more and a
    closing parenthesis; [d] are the digits. *)
Definition cap_digits (d : list ascii) : Prop :=
  d <> [] /\ forallb regexp.digit d = true.

Definition cap_annotation (d : list ascii) : list ascii :=
  (chars "cap=" ++ d ++ chars ")")%list.

(** An address annotation is [(0x] followed by 6 to 10 lower-case
    hexadecimal digits and a closing parenthesis; [h] are the digits. *)
Definition addr_digits (h : list ascii) : Prop :=
  (6 <= length h <= 10)%nat /\ forallb regexp.lower_hex h = true.

Definition addr_annotation (h : list ascii) : list ascii :=
  (chars "(0x" ++ h ++ chars ")")%list.

(** Two texts that differ only in the digits of their address
    annotations. *)
Inductive addr_eq : list ascii -> list ascii -> Prop :=
  | addr_eq_nil : addr_eq [] []
  | addr_eq_byte c s t : addr_eq s t -> addr_eq (c :: s) (c :: t)
  | addr_eq_addr h h' s t :
      addr_digits h -> addr_digits h' -> addr_eq s t ->
      addr_eq (addr_annotation h ++ s) (addr_annotation h' ++ t).

(** Two texts that differ only in the digits of their capacity and
    address annotations. *)
Inductive volatile_eq : list ascii -> list ascii -> Prop :=
  | volatile_eq_nil : volatile_eq [] []
  | volatile_eq_byte c s t : volatile_eq s t -> volatile_eq (c :: s) (c :: t)
  | volatile_eq_cap d d' s t :
      cap_digits d -> cap_digits d' -> volatile_eq s t ->
      volatile_eq (cap_annotation d ++ s) (cap_annotation d' ++ t)
  | volatile_eq_addr h h' s t :
      addr_digits h -> addr_digits h' -> volatile_eq s t ->
      volatile_eq (addr_annotation h ++ s) (addr_annotation h' ++ t).

(** The upper bound of a repetition. *)
Definition within (hi : option nat) (n : nat) : Prop :=
  match hi with Some h => (n <= h)%nat | None => True end.


(** The two passes of [assert_go.normalize], on the bytes of a dump. *)
Definition cap_pass (s : list ascii) : list ascii :=
  regexp.replace_from assert_go.capRE (chars assert_go.capRepl) 0 s.

Definition addr_pass (s : list ascii) : list ascii :=
  regexp.replace_from assert_go.addRE (chars assert_go.addRepl) 0 s.

(** ** Vocabulary of the further properties *)

(** Every call of the run is a report on the sink [t]: no call on
    another sink, no [FailNow]. *)
Definition only_reports_on (t : TestingT) (l : list event) : Prop :=
  Forall (fun e => exists format args, e = EvErrorf t format args) l.

(** The check came to its end: it returned a verdict, or the differ
    failed under it. *)
Definition returns_or_panics (o : outcome bool) : Prop :=
  (exists b, o = Returns b) \/ (exists msg, o = Panics msg).

(** The differ answers every request. *)
Definition differ_total `{GoLibrary} : Prop :=
  forall d, exists s, difflib_GetUnifiedDiffString d = inl s.

(** A check that does not halt the test: every call it makes is a
    report on the sink it was given, it returns its verdict or panics under
    a differ that failed, and it returns when the differ answers every
    request. *)
Definition never_halts `{GoLibrary} (t : TestingT) (c : run bool) : Prop :=
  only_reports_on t c.1
  /\ returns_or_panics c.2
  /\ (differ_total -> exists verdict, c.2 = Returns verdict).

(** No match of the pattern starts anywhere in the text. *)
Fixpoint no_match (re : regexp.Regexp) (s : list ascii) : bool :=
  match s with
  | [] => true
  | _ :: s' =>
      match regexp.match_here re s with
      | None => no_match re s'
      | Some _ => false
      end
  end.

(** A check that does not fail in silence: a false verdict comes after
    at least one report on the sink, and so does a halt, whose last call
    is the [FailNow] of the sink. *)
Definition loud (t : TestingT) (c : run bool) : Prop :=
  match c with
  | (l, Returns false) => l <> [] /\ only_reports_on t l
  | (l, Returns true) => only_reports_on t l
  | (l, Halts) =>
      exists l', l = (l' ++ [EvFailNow t])%list /\ l' <> []
                 /\ only_reports_on t l'
  | (l, Panics _) => only_reports_on t l
  end.

(** The same of a require form, which returns no verdict. *)
Definition loud_require (t : TestingT) (c : run unit) : Prop :=
  match c with
  | (l, Returns _) => only_reports_on t l
  | (l, Halts) =>
      exists l', l = (l' ++ [EvFailNow t])%list /\ l' <> []
                 /\ only_reports_on t l'
  | (l, Panics _) => only_reports_on t l
  end.

(** ** src/unnamed/part_001: package assert, the revision between
    src/assert/assert.go and src/unnamed/part_000 *)
Module assert_part001.
Section assert_part001.
Context `{GoLibrary}.

Record Assertions := { Assertions_ : TestingT; t : TestingT }.

Definition New (t : TestingT) : Assertions :=
  {| Assertions_ := t; t := t |}.

(** [assert.Fail] of testify: one report, and [false]. *)
Definition Fail (t : TestingT) (failureMessage : string)
    (msgAndArgs : list value) : run bool :=
  let '(format, args) := testify_Fail_report failureMessage msgAndArgs in
  Errorf t format args ;;; ret false.

Definition FailDiff (t : TestingT) (failureMessage diff : string)
    (msgAndArgs : list value) : run bool :=
  if String.eqb diff "" then Fail t failureMessage msgAndArgs
  else
    let message := messageFromMsgAndArgs msgAndArgs in
    let errorTrace := Join assert_CallerInfo (LF +:+ CR +:+ TAB +:+ TAB +:+ TAB) in
    let msg :=
      CR +:+ getWhitespaceString +:+ CR +:+ TAB +:+ "Error Trace:" +:+ TAB
      +:+ errorTrace +:+ LF +:+ CR +:+ TAB +:+ "Error:"
      +:+ indentMessageLines failureMessage 2 +:+ LF in
    let msg :=
      if (0 <? String.length diff)%nat
      then msg +:+ CR +:+ TAB +:+ "Diff:" +:+ indentMessageLines diff 2
               +:+ LF +:+ CR
      else msg in
    let msg :=
      if (0 <? String.length message)%nat
      then msg +:+ CR +:+ TAB +:+ "Messages:" +:+ TAB +:+ message
               +:+ LF +:+ CR
      else msg in
    Errorf t msg [] ;;; ret false.

(** [cap=[0-9]+\)] and [\(0x[0-9a-f]{6,10}\)]. *)
Definition capRE : regexp.Regexp :=
  (regexp.lits "cap=" ++ [regexp.Rep regexp.digit 1 None] ++ regexp.lits ")")%list.
Definition capRepl : string := "cap=X".
Definition addRE : regexp.Regexp :=
  (regexp.lits "(0x" ++ [regexp.Rep regexp.lower_hex 6 (Some 10%nat)]
     ++ regexp.lits ")")%list.
Definition addRepl : string := "(0xXXXXXXXXXX)".

(** The [difflib.UnifiedDiff] that [diff] builds. *)
Definition udiff (expected actual : string) : UnifiedDiff :=
  {| A := SplitAfter expected "010";
     FromFile := "expected";
     B := SplitAfter actual "010";
     ToFile := "actual";
     Context := 2 |}.

Definition diff (expected actual : string) : run string :=
  match difflib_GetUnifiedDiffString (udiff expected actual) with
  | inl diff => ret diff
  | inr err => panic ("Error producing diff: " +:+ err)
  end.

Definition scs : ConfigState :=
  {| Indent := "  "; DisableMethods := true; SortKeys := true |}.

(** [expString] and [actString] as [interfaceDiff] hands them to
    [diff]. *)
Definition interfaceDiff_texts (expected actual : value) : string * string :=
  let expString := spew_Sdump scs expected in
  let actString := spew_Sdump scs actual in
  let expString := regexp.ReplaceAllString capRE expString capRepl in
  let actString := regexp.ReplaceAllString capRE actString capRepl in
  let expString := regexp.ReplaceAllString addRE expString addRepl in
  let actString := regexp.ReplaceAllString addRE actString addRepl in
  (expString, actString).

Definition interfaceDiff (expected actual : value) : run string :=
  let '(expString, actString) := interfaceDiff_texts expected actual in
  diff expString actString.

Definition DeepEqual (t : TestingT) (expected actual : value)
    (msgAndArgs : list value) : run bool :=
  if reflect_DeepEqual expected actual then ret true
  else
    d <- interfaceDiff expected actual ;;
    FailDiff t "Structs differ" d msgAndArgs.

(** The method takes a sink of its own and does not use it. *)
Definition Assertions_DeepEqual (a : Assertions) (t_ : TestingT)
    (expected actual : value) (msgAndArgs : list value) : run bool :=
  DeepEqual (t a) expected actual msgAndArgs.

Definition marshalJSON (t : TestingT) (i : value)
    (msgAndArgs : list value) : run bytes :=
  match json_MarshalIndent i "" "    " with
  | inl output => ret output
  | inr err =>
      (* [MarshalIndent] returns a nil output with its error *)
      Fail t ("Error marshaling JSON: " +:+ err +:+ LF) msgAndArgs ;;;
      ret []
  end.

(** [var e interface{}; json.Unmarshal(data, &e)] with the error
    dropped: [e] stays nil when the data does not decode. *)
Definition decoded (data : bytes) : value :=
  match json_Unmarshal data with
  | inl v => v
  | inr _ => VNil
  end.

Definition DeepEqualJSON (t : TestingT) (expected actual : value)
    (msgAndArgs : list value) : run bool :=
  expectedJSON <- marshalJSON t expected msgAndArgs ;;
  actualJSON <- marshalJSON t actual msgAndArgs ;;
  let e := decoded expectedJSON in
  let a := decoded actualJSON in
  if reflect_DeepEqual e a then ret true
  else
    d <- diff (string_of_bytes expectedJSON) (string_of_bytes actualJSON) ;;
    FailDiff t "JSON representations differ" d msgAndArgs.

Definition Assertions_DeepEqualJSON (a : Assertions)
    (expected actual : value) (msgAndArgs : list value) : run bool :=
  DeepEqualJSON (t a) expected actual msgAndArgs.

Definition MarshalsToJSON (t : TestingT) (expected : bytes) (actual : value)
    (msgAndArgs : list value) : run bool :=
  actualJSON <- marshalJSON t actual msgAndArgs ;;
  match json_Unmarshal expected with
  | inr err => Fail t "Error unmarshaling expected JSON string" msgAndArgs
  | inl e =>
      let a := decoded actualJSON in
      if reflect_DeepEqual e a then ret true
      else
        d <- diff (string_of_bytes expected) (string_of_bytes actualJSON) ;;
        FailDiff t "JSON representations differ" d msgAndArgs
  end.

Definition Assertions_MarshalsToJSON (a : Assertions)
    (expected : bytes) (actual : value) (msgAndArgs : list value) : run bool :=
  MarshalsToJSON (t a) expected actual msgAndArgs.

Definition LinesEqual (t : TestingT) (expected actual : string)
    (msgAndArgs : list value) : run bool :=
  if String.eqb expected actual then ret true
  else
    d <- diff expected actual ;;
    FailDiff t "Strings differ" d msgAndArgs.

Definition Assertions_LinesEqual (a : Assertions)
    (expected actual : string) (msgAndArgs : list value) : run bool :=
  LinesEqual (t a) expected actual msgAndArgs.

End assert_part001.
End assert_part001.

(** Two runs that end with the same verdict after the same number of
    calls on the sink. *)
Definition same_verdict (c c' : run bool) : Prop :=
  exists l l' verdict,
    c = (l, Returns verdict) /\ c' = (l', Returns verdict)
    /\ length l = length l'.

(** * Properties *)

(** ** The run of a check *)

Lemma bind_ret_l {A B} (a : A) (k : A -> run B) : bind (ret a) k = k a.
Proof. unfold bind, ret. destruct (k a); reflexivity. Qed.

Lemma bind_returns {A B} (l : list event) (a : A) (k : A -> run B) :
  bind (l, Returns a) k = ((l ++ (k a).1)%list, (k a).2).
Proof. unfold bind. destruct (k a); reflexivity. Qed.

Lemma append_assoc (a b c : string) : (a +:+ b) +:+ c = a +:+ (b +:+ c).
Proof. induction a as [|x a IH]; simpl; [reflexivity | f_equal; exact IH]. Qed.

Lemma append_nil_r (a : string) : a +:+ "" = a.
Proof. induction a as [|x a IH]; simpl; [reflexivity | f_equal; exact IH]. Qed.

Lemma contains_refl (s : string) : contains s s.
Proof. exists "", "". simpl. now rewrite append_nil_r. Qed.

Lemma contains_app_l (a b s : string) : contains a s -> contains (a +:+ b) s.
Proof.
  intros (p & q & ->). exists p, (q +:+ b). now rewrite !append_assoc.
Qed.

Lemma contains_app_r (a b s : string) : contains b s -> contains (a +:+ b) s.
Proof.
  intros (p & q & ->). exists (a +:+ p), q. now rewrite !append_assoc.
Qed.

Ltac find_contains :=
  solve [ apply contains_refl
        | apply contains_app_l; find_contains
        | apply contains_app_r; find_contains ].

Section reporter_properties.
Context `{GoLibrary}.
Import assert_part000.

(** [Fail] makes one report on its sink, with the description among the
    arguments, and returns false. *)
Lemma Fail_reports_once t failureMessage msgAndArgs :
  exists e, Fail t failureMessage msgAndArgs = ([e], Returns false)
            /\ reports_failure t failureMessage e.
Proof.
  unfold Fail.
  destruct (0 <? String.length (messageFromMsgAndArgs msgAndArgs))%nat;
    (eexists; split; [reflexivity|]); simpl; split; auto.
Qed.

(** [FailDiff] makes one report on its sink and returns false. *)
Lemma FailDiff_reports_once t failureMessage d msgAndArgs :
  exists e, FailDiff t failureMessage d msgAndArgs = ([e], Returns false)
            /\ reports_failure t failureMessage e.
Proof.
  unfold FailDiff. destruct (String.eqb d "").
  - apply Fail_reports_once.
  - eexists; split; [reflexivity|]. split; [reflexivity|]. right.
    destruct (0 <? String.length d)%nat,
             (0 <? String.length (messageFromMsgAndArgs msgAndArgs))%nat;
      find_contains.
Qed.

End reporter_properties.

(** ** Induction on values *)

Lemma vsize_slice (l : list value) (x : value) :
  In x l -> vsize x < vsize (VSlice l).
Proof.
  simpl. induction l as [|y l IH]; simpl; [tauto|].
  intros [->|Hin]; [lia | specialize (IH Hin); lia].
Qed.

Lemma vsize_map (m : gmap string value) (k : string) (x : value) :
  m !! k = Some x -> vsize x < vsize (VMap m).
Proof.
  simpl. revert k x.
  apply (map_fold_weak_ind
           (fun r (m' : gmap string value) =>
              forall k x, m' !! k = Some x -> vsize x < S r)).
  - intros k x Hk. rewrite lookup_empty in Hk. discriminate.
  - intros i y m' r _ IH k x Hk.
    destruct (decide (i = k)) as [->|Hne].
    + rewrite lookup_insert_eq in Hk. injection Hk as ->. lia.
    + rewrite lookup_insert_ne in Hk by assumption. specialize (IH k x Hk). lia.
Qed.

(** Induction on a value, with the hypothesis on every element of a slice
    and of a map. *)
Lemma value_nested_ind (P : value -> Prop) :
  (forall v, (forall l, v <> VSlice l) -> (forall m, v <> VMap m) ->
             (forall a x, v <> VPtr a x) -> P v) ->
  (forall l, Forall P l -> P (VSlice l)) ->
  (forall m : gmap string value, map_Forall (fun _ => P) m -> P (VMap m)) ->
  (forall a x, P x -> P (VPtr a x)) ->
  forall v, P v.
Proof.
  intros Hbase Hslice Hmap Hptr v.
  remember (vsize v) as n eqn:Hn. revert v Hn.
  induction n as [n IH] using lt_wf_ind. intros v ->.
  destruct v; try (apply Hbase; congruence).
  - apply Hslice. apply List.Forall_forall. intros x Hin.
    apply (IH (vsize x)); [now apply vsize_slice | reflexivity].
  - apply Hmap. intros k x Hk.
    apply (IH (vsize x)); [now apply (vsize_map _ k) | reflexivity].
  - apply Hptr. apply (IH (vsize v)); [simpl; lia | reflexivity].
Qed.

Lemma map_fold_and_true {V} (p : V -> bool) (m : gmap string V) :
  map_fold (fun _ x acc => acc && p x) true m = true ->
  forall k x, m !! k = Some x -> p x = true.
Proof.
  apply (map_fold_weak_ind
           (fun r (m' : gmap string V) =>
              r = true -> forall k x, m' !! k = Some x -> p x = true)).
  - intros _ k x Hk. rewrite lookup_empty in Hk. discriminate.
  - intros i y m' r _ IH Hr k x Hk.
    apply andb_true_iff in Hr as [Hr Hy].
    destruct (decide (i = k)) as [->|Hne].
    + rewrite lookup_insert_eq in Hk. now injection Hk as <-.
    + rewrite lookup_insert_ne in Hk by assumption. eauto.
Qed.

Lemma map_fold_lookup_true {V} (g : string -> V -> bool) (m : gmap string V) :
  (forall k x, m !! k = Some x -> g k x = true) ->
  map_fold (fun k x acc => acc && g k x) true m = true.
Proof.
  apply (map_fold_weak_ind
           (fun r (m' : gmap string V) =>
              (forall k x, m' !! k = Some x -> g k x = true) -> r = true)).
  - reflexivity.
  - intros i y m' r Hi IH Hall. apply andb_true_iff. split.
    + apply IH. intros k x Hk. apply Hall.
      rewrite lookup_insert_ne; [assumption|]. intros ->. congruence.
    + apply Hall. apply lookup_insert_eq.
Qed.

(** ** reflect.DeepEqual *)

Lemma list_eqb_refl {T} (eqb : T -> T -> bool) (l : list T) :
  Forall (fun x => eqb x x = true) l -> list_eqb eqb l l = true.
Proof. induction 1 as [|x l Hx _ IH]; simpl; [reflexivity | now rewrite Hx]. Qed.

Lemma Node_DeepEqual_refl (n : Node) : Node_DeepEqual n n = true.
Proof.
  revert n. fix ind 1. intros [ty data attrs children]. simpl.
  assert (Hty : NodeType_eqb ty ty = true) by now destruct ty.
  rewrite Hty, String.eqb_refl. simpl.
  rewrite list_eqb_refl.
  2:{ apply List.Forall_forall. intros [a b] _. unfold Attr_eqb. simpl.
      now rewrite !String.eqb_refl. }
  simpl. induction children as [|c cs IHcs]; [reflexivity|].
  now rewrite (ind c), IHcs.
Qed.

Lemma reflect_DeepEqual_refl (v : value) :
  deep_reflexive v = true -> reflect_DeepEqual v v = true.
Proof.
  induction v as [v Hs Hm Hp | l IH | m IH | a x IH] using value_nested_ind.
  - destruct v as [ | b | n | bits | s | b | l | m | a x | f | a | n | s
                    | mem p ];
      cbn [reflect_DeepEqual deep_reflexive]; intros Hr.
    + reflexivity.
    + now destruct b.
    + apply Z.eqb_refl.
    + unfold float64_eq. apply negb_true_iff in Hr. rewrite Hr, Z.eqb_refl.
      reflexivity.
    + apply String.eqb_refl.
    + apply list_eqb_refl. apply List.Forall_forall. intros x _.
      now apply Byte.byte_dec_lb.
    + now contradiction (Hs l).
    + now contradiction (Hm m).
    + now contradiction (Hp a x).
    + destruct f; [discriminate Hr | reflexivity].
    + apply Z.eqb_refl.
    + destruct n as [n|]; cbn; [apply Node_DeepEqual_refl | reflexivity].
    + destruct s as [[ns]|]; cbn; [|reflexivity].
      apply list_eqb_refl.
      apply List.Forall_forall. intros n _. apply Node_DeepEqual_refl.
    + destruct p as [a|]; [|now destruct (visit_bound mem mem)].
      assert (Hrun : forall fuel,
                deepValueEqual fuel mem mem [] (Some a) (Some a) = Some true).
      { intros fuel. destruct fuel; cbn; now rewrite Z.eqb_refl. }
      now rewrite Hrun.
  - cbn [reflect_DeepEqual deep_reflexive]. intros Hr.
    induction IH as [|x l Hx _ IHl]; [reflexivity|].
    cbn [forallb] in Hr. apply andb_true_iff in Hr as [Hrx Hrl].
    now rewrite (Hx Hrx), (IHl Hrl).
  - cbn [reflect_DeepEqual deep_reflexive]. intros Hr. rewrite Nat.eqb_refl.
    cbn [andb].
    apply map_fold_lookup_true. intros k x Hk. rewrite Hk.
    apply (IH k x Hk). exact (map_fold_and_true deep_reflexive m Hr k x Hk).
  - cbn [reflect_DeepEqual]. intros _. now rewrite Z.eqb_refl.
Qed.

(** *** Cyclic references *)

Lemma visited_mem_In v visited : visited_mem v visited = true <-> List.In v visited.
Proof.
  unfold visited_mem. rewrite existsb_exists. split.
  - intros ([w1 w2] & Hin & Heq). destruct v as [v1 v2]. simpl in Heq.
    apply andb_true_iff in Heq as [H1 H2].
    apply Z.eqb_eq in H1, H2. now subst.
  - intros Hin. exists v. split; [exact Hin|]. now rewrite !Z.eqb_refl.
Qed.

Lemma visit_in_addresses mem mem' a1 a2 c1 c2 :
  mem !! a1 = Some c1 -> mem' !! a2 = Some c2 ->
  List.In (visit a1 a2) (list_prod (addresses mem mem') (addresses mem mem')).
Proof.
  intros H1 H2.
  assert (Ha1 : List.In a1 (addresses mem mem')).
  { apply list_elem_of_In, elem_of_elements, elem_of_union. left.
    apply elem_of_dom. eauto. }
  assert (Ha2 : List.In a2 (addresses mem mem')).
  { apply list_elem_of_In, elem_of_elements, elem_of_union. right.
    apply elem_of_dom. eauto. }
  unfold visit. destruct (a2 <? a1)%Z; apply in_prod; assumption.
Qed.

(** The comparison of two pointers to cells comes to its answer: as long
    as the pairs already recorded are pairs of addresses of the memories,
    each once, and the fuel covers the pairs not yet recorded, the fuel is
    not used up. *)
Lemma deepValueEqual_answers fuel mem mem' visited p q :
  List.NoDup visited ->
  List.incl visited (list_prod (addresses mem mem') (addresses mem mem')) ->
  (visit_bound mem mem' <= fuel + length visited)%nat ->
  exists b, deepValueEqual fuel mem mem' visited p q = Some b.
Proof.
  revert visited p q. induction fuel as [|fuel IH]; intros visited p q Hnd Hincl Hlen;
    (destruct p as [a1|], q as [a2|]; cbn [deepValueEqual]; eauto;
     destruct (visited_mem (visit a1 a2) visited) eqn:Hv; eauto;
     destruct (a1 =? a2)%Z; eauto;
     destruct (mem !! a1) as [c1|] eqn:H1; eauto;
     destruct (mem' !! a2) as [c2|] eqn:H2; eauto;
     destruct (Val c1 =? Val c2)%Z; eauto).
  - exfalso.
    assert (Hnew : ~ List.In (visit a1 a2) visited).
    { intros Hin. apply visited_mem_In in Hin. congruence. }
    assert (Hnd' : List.NoDup (visit a1 a2 :: visited)) by now constructor.
    assert (Hincl' : List.incl (visit a1 a2 :: visited)
                       (list_prod (addresses mem mem') (addresses mem mem'))).
    { intros w [<-|Hw]; [now apply (visit_in_addresses mem mem' a1 a2 c1 c2)|auto]. }
    pose proof (List.NoDup_incl_length Hnd' Hincl') as Hle.
    unfold visit_bound in Hlen. simpl in Hle, Hlen. lia.
  - apply IH.
    + constructor; [|exact Hnd]. intros Hin. apply visited_mem_In in Hin. congruence.
    + intros w [<-|Hw]; [now apply (visit_in_addresses mem mem' a1 a2 c1 c2)|auto].
    + simpl. lia.
Qed.

Lemma reflect_DeepEqual_link mem mem' p q :
  exists b,
    deepValueEqual (visit_bound mem mem') mem mem' [] p q = Some b
    /\ reflect_DeepEqual (VLink mem p) (VLink mem' q) = b.
Proof.
  destruct (deepValueEqual_answers (visit_bound mem mem') mem mem' [] p q)
    as (b & Hb).
  - constructor.
  - intros w [].
  - simpl. lia.
  - exists b. split; [exact Hb|]. cbn [reflect_DeepEqual]. now rewrite Hb.
Qed.


(** ** The JSON checks *)

Section json_properties.
Context `{GoLibrary}.
Import assert_part000.

Lemma marshalJSON_ok t i msgAndArgs output :
  json_MarshalIndent i "" "    " = inl output ->
  marshalJSON t i msgAndArgs = ret output.
Proof. intros Hm. unfold marshalJSON. now rewrite Hm. Qed.

(** A value that does not marshal is reported, with the text of the
    error in the description, and the nil output is carried on. *)
Lemma marshalJSON_error t i msgAndArgs err :
  json_MarshalIndent i "" "    " = inr err ->
  exists e,
    marshalJSON t i msgAndArgs = ([e], Returns [])
    /\ reports_failure t ("Error marshaling JSON: " +:+ err +:+ LF) e.
Proof.
  intros Hm. unfold marshalJSON. rewrite Hm.
  destruct (Fail_reports_once t ("Error marshaling JSON: " +:+ err +:+ LF) msgAndArgs)
    as (e & -> & He).
  exists e. split; [reflexivity | exact He].
Qed.

Lemma marshalJSON_returns t i msgAndArgs :
  exists l output, marshalJSON t i msgAndArgs = (l, Returns output).
Proof.
  destruct (json_MarshalIndent i "" "    ") as [output | err] eqn:Hm.
  - exists [], output. now apply marshalJSON_ok.
  - destruct (marshalJSON_error t i msgAndArgs err Hm) as (e & -> & _). eauto.
Qed.

(** C6: when the expected bytes do not decode, MarshalsToJSON ends with
    one report described as "Error unmarshaling expected JSON string" and
    returns false; the report and the result are the same for every
    actual value, which can only add the report of its own marshaling
    error before it. *)
Theorem MarshalsToJSON_invalid_expected t expected msgAndArgs err :
  json_Unmarshal expected = inr err ->
  exists e,
    reports_failure t "Error unmarshaling expected JSON string" e
    /\ forall actual,
         MarshalsToJSON t expected actual msgAndArgs
         = (((marshalJSON t actual msgAndArgs).1 ++ [e])%list, Returns false).
Proof.
  intros He.
  destruct (Fail_reports_once t "Error unmarshaling expected JSON string" msgAndArgs)
    as (e & HF & Hr).
  exists e. split; [exact Hr|]. intros actual.
  unfold MarshalsToJSON.
  destruct (marshalJSON_returns t actual msgAndArgs) as (l & output & ->).
  rewrite bind_returns, He, HF. reflexivity.
Qed.

(** When the expected value does not marshal and the actual value
    decodes to nil, the two decoded forms are both nil. *)
Lemma DeepEqualJSON_marshal_error_nil
    t expected actual msgAndArgs err err0 l output :
  json_MarshalIndent expected "" "    " = inr err ->
  json_Unmarshal [] = inr err0 ->
  marshalJSON t actual msgAndArgs = (l, Returns output) ->
  decoded output = VNil ->
  exists e,
    reports_failure t ("Error marshaling JSON: " +:+ err +:+ LF) e
    /\ DeepEqualJSON t expected actual msgAndArgs = (e :: l, Returns true).
Proof.
  intros Hm H0 Ha Hd.
  destruct (marshalJSON_error t expected msgAndArgs err Hm) as (e & He & Hr).
  exists e. split; [exact Hr|].
  assert (Hd0 : decoded [] = VNil) by (unfold decoded; now rewrite H0).
  unfold DeepEqualJSON. rewrite He, Ha. unfold bind. rewrite Hd0, Hd.
  cbn. now rewrite app_nil_r.
Qed.

(** C2, at the failing input: when the expected value does not marshal
    and the actual value decodes to nil (it marshals to null, or does not
    marshal either), DeepEqualJSON reports the marshaling error, with its
    text, and then returns true. *)
Theorem DeepEqualJSON_true_after_marshal_error
    t expected actual msgAndArgs err err0 l output :
  json_MarshalIndent expected "" "    " = inr err ->
  json_Unmarshal [] = inr err0 ->
  marshalJSON t actual msgAndArgs = (l, Returns output) ->
  decoded output = VNil ->
  exists e,
    reports_failure t ("Error marshaling JSON: " +:+ err +:+ LF) e
    /\ DeepEqualJSON t expected actual msgAndArgs = (e :: l, Returns true).
Proof. apply DeepEqualJSON_marshal_error_nil. Qed.

(** When the expected value does not marshal and the actual value does,
    to a text that does not decode to nil, both the marshaling error and
    the difference are reported. *)
Lemma DeepEqualJSON_marshal_error_differ
    t expected actual msgAndArgs err err0 output d :
  json_MarshalIndent expected "" "    " = inr err ->
  json_Unmarshal [] = inr err0 ->
  json_MarshalIndent actual "" "    " = inl output ->
  reflect_DeepEqual VNil (decoded output) = false ->
  difflib_GetUnifiedDiffString (udiff "" (string_of_bytes output)) = inl d ->
  exists e1 e2,
    reports_failure t ("Error marshaling JSON: " +:+ err +:+ LF) e1
    /\ reports_failure t "JSON representations differ" e2
    /\ DeepEqualJSON t expected actual msgAndArgs = ([e1; e2], Returns false).
Proof.
  intros Hm H0 Ha Hd Hdiff.
  destruct (marshalJSON_error t expected msgAndArgs err Hm) as (e1 & He & Hr).
  destruct (FailDiff_reports_once t "JSON representations differ" d msgAndArgs)
    as (e2 & HF & Hr2).
  exists e1, e2. repeat split; try assumption.
  assert (Hd0 : decoded [] = VNil) by (unfold decoded; now rewrite H0).
  unfold DeepEqualJSON. rewrite He, (marshalJSON_ok _ _ _ _ Ha).
  unfold bind, ret. rewrite Hd0, Hd. unfold diff.
  change (string_of_bytes []) with "". rewrite Hdiff. unfold ret.
  rewrite HF. reflexivity.
Qed.

(** When the two values marshal, the outcome turns on the decoded forms
    alone. *)
Lemma DeepEqualJSON_decoded t expected actual msgAndArgs ej aj :
  json_MarshalIndent expected "" "    " = inl ej ->
  json_MarshalIndent actual "" "    " = inl aj ->
  reflect_DeepEqual (decoded ej) (decoded aj) = true ->
  DeepEqualJSON t expected actual msgAndArgs = ([], Returns true).
Proof.
  intros He Ha Hd. unfold DeepEqualJSON.
  rewrite (marshalJSON_ok _ _ _ _ He), bind_ret_l.
  rewrite (marshalJSON_ok _ _ _ _ Ha), bind_ret_l.
  now rewrite Hd.
Qed.

Lemma DeepEqualJSON_not_decoded t expected actual msgAndArgs ej aj :
  json_MarshalIndent expected "" "    " = inl ej ->
  json_MarshalIndent actual "" "    " = inl aj ->
  reflect_DeepEqual (decoded ej) (decoded aj) = false ->
  DeepEqualJSON t expected actual msgAndArgs
  = (d <- diff (string_of_bytes ej) (string_of_bytes aj) ;;
     FailDiff t "JSON representations differ" d msgAndArgs).
Proof.
  intros He Ha Hd. unfold DeepEqualJSON.
  rewrite (marshalJSON_ok _ _ _ _ He), bind_ret_l.
  rewrite (marshalJSON_ok _ _ _ _ Ha), bind_ret_l.
  now rewrite Hd.
Qed.

Lemma json_generic_reflexive (v : value) :
  json_generic v = true -> deep_reflexive v = true.
Proof.
  induction v as [v Hs Hm Hp | l IH | m IH | a x IH] using value_nested_ind.
  - destruct v; cbn [json_generic deep_reflexive]; try congruence; try reflexivity.
    + now contradiction (Hs l).
    + now contradiction (Hm m).
  - cbn [json_generic deep_reflexive]. intros Hg.
    induction IH as [|x l Hx _ IHl]; [reflexivity|].
    cbn [forallb] in *. apply andb_true_iff in Hg as [Hgx Hgl].
    now rewrite (Hx Hgx), (IHl Hgl).
  - cbn [json_generic deep_reflexive]. intros Hg.
    apply (map_fold_lookup_true (fun _ x => deep_reflexive x)).
    intros k x Hk. apply (IH k x Hk).
    exact (map_fold_and_true json_generic m Hg k x Hk).
  - discriminate.
Qed.

(** C8, as the code has it: DeepEqualJSON compares the decoded forms of
    the two encodings and not their texts: two values that marshal to
    texts with deeply equal decoded forms pass, whatever the texts; in
    particular two maps that marshal, built from the same key/value pairs
    inserted in two different orders, pass, with no report (the text
    decoding to a generic value, as the decoder gives). *)
Theorem DeepEqualJSON_ignores_key_order t msgAndArgs :
  (forall expected actual ej aj,
     json_MarshalIndent expected "" "    " = inl ej ->
     json_MarshalIndent actual "" "    " = inl aj ->
     reflect_DeepEqual (decoded ej) (decoded aj) = true ->
     DeepEqualJSON t expected actual msgAndArgs = ([], Returns true))
  /\ (forall (pairs pairs' : list (string * value)) output,
        NoDup pairs.*1 ->
        pairs ≡ₚ pairs' ->
        json_MarshalIndent (map_of pairs) "" "    " = inl output ->
        json_generic (decoded output) = true ->
        DeepEqualJSON t (map_of pairs) (map_of pairs') msgAndArgs
        = ([], Returns true)).
Proof.
  split.
  - intros. now apply (DeepEqualJSON_decoded _ _ _ _ ej aj).
  - intros pairs pairs' output Hnd Hperm Hm Hg. unfold map_of in *.
    rewrite <- (list_to_map_proper pairs pairs' Hnd Hperm).
    apply (DeepEqualJSON_decoded _ _ _ _ output output); try assumption.
    now apply reflect_DeepEqual_refl, json_generic_reflexive.
Qed.

End json_properties.

(** ** DeepEqual *)

Section deepequal_properties.
Context `{GoLibrary}.
Import assert_part000.

Lemma DeepEqual_mismatch t expected actual msgAndArgs :
  reflect_DeepEqual expected actual = false ->
  match difflib_GetUnifiedDiffString
          (udiff (spew_Sdump scs expected) (spew_Sdump scs actual)) with
  | inl d =>
      exists e,
        DeepEqual t expected actual msgAndArgs = ([e], Returns false)
        /\ reports_failure t "Structs differ" e
        /\ FailDiff t "Structs differ" d msgAndArgs = ([e], Returns false)
  | inr err =>
      DeepEqual t expected actual msgAndArgs
      = ([], Panics ("Error producing diff: " +:+ err))
  end.
Proof.
  intros Hne. unfold DeepEqual, interfaceDiff, interfaceDiff_texts, diff.
  rewrite Hne.
  destruct (difflib_GetUnifiedDiffString _) as [d | err]; [|reflexivity].
  destruct (FailDiff_reports_once t "Structs differ" d msgAndArgs)
    as (e & HF & Hr).
  exists e. rewrite bind_ret_l. auto.
Qed.

(** C5, as the code has it: DeepEqual returns true, with no report,
    exactly when the two values are deeply equal, as [reflect.DeepEqual]
    decides it; so DeepEqual(v, v) returns true for every value v that
    holds no NaN and no func value other than nil; references that come
    back to themselves are handled without endless recursion: a pointer
    into a memory of cells, cyclic or not, is equal to itself, and the
    comparison of two such pointers, which records the pairs it has
    started on, comes to its answer within its bound; on a mismatch the
    two dumps are diffed and one failure described as "Structs differ" is
    reported, built from that diff, and false is returned. *)
Theorem DeepEqual_iff_reflect_DeepEqual t expected actual msgAndArgs :
  (DeepEqual t expected actual msgAndArgs = ([], Returns true)
   <-> reflect_DeepEqual expected actual = true)
  /\ (deep_reflexive expected = true ->
      DeepEqual t expected expected msgAndArgs = ([], Returns true))
  /\ (forall mem p mem' q,
        DeepEqual t (VLink mem p) (VLink mem p) msgAndArgs = ([], Returns true)
        /\ exists b,
             deepValueEqual (visit_bound mem mem') mem mem' [] p q = Some b
             /\ (DeepEqual t (VLink mem p) (VLink mem' q) msgAndArgs
                 = ([], Returns true) <-> b = true))
  /\ (reflect_DeepEqual expected actual = false ->
      forall d,
        difflib_GetUnifiedDiffString
          (udiff (spew_Sdump scs expected) (spew_Sdump scs actual)) = inl d ->
        exists e,
          DeepEqual t expected actual msgAndArgs = ([e], Returns false)
          /\ reports_failure t "Structs differ" e
          /\ FailDiff t "Structs differ" d msgAndArgs = ([e], Returns false)).
Proof.
  assert (Hiff : forall x y,
            DeepEqual t x y msgAndArgs = ([], Returns true)
            <-> reflect_DeepEqual x y = true).
  { intros x y. split.
    - intros Hrun.
      destruct (reflect_DeepEqual x y) eqn:Hd; [reflexivity|].
      pose proof (DeepEqual_mismatch t x y msgAndArgs Hd) as Hm.
      destruct (difflib_GetUnifiedDiffString _) as [d | err].
      + destruct Hm as (e & Hm & _). rewrite Hm in Hrun. discriminate Hrun.
      + rewrite Hm in Hrun. discriminate Hrun.
    - intros Hd. unfold DeepEqual. now rewrite Hd. }
  assert (Hrefl : forall x, deep_reflexive x = true ->
            DeepEqual t x x msgAndArgs = ([], Returns true)).
  { intros x Hr. apply Hiff. now apply reflect_DeepEqual_refl. }
  split; [apply Hiff|]. split; [apply Hrefl|]. split.
  - intros mem p mem' q. split; [now apply Hrefl|].
    destruct (reflect_DeepEqual_link mem mem' p q) as (b & Hb & Heq).
    exists b. split; [exact Hb|]. rewrite Hiff, Heq. reflexivity.
  - intros Hd d Hdiff.
    pose proof (DeepEqual_mismatch t expected actual msgAndArgs Hd) as Hm.
    rewrite Hdiff in Hm. exact Hm.
Qed.

(** The same in src/assert/assert.go, where the dumps are normalized
    before they are diffed. *)
Lemma assert_go_DeepEqual_run t expected actual msgAndArgs :
  assert_go.DeepEqual t expected actual msgAndArgs
  = if reflect_DeepEqual expected actual then ([], Returns true)
    else
      match difflib_GetUnifiedDiffString
              (assert_go.udiff
                 (assert_go.normalize (spew_Sdump assert_go.scs expected))
                 (assert_go.normalize (spew_Sdump assert_go.scs actual))) with
      | inl d => assert_go.FailDiff t "Structs differ" d msgAndArgs
      | inr err => ([], Panics ("Error producing diff: " +:+ err))
      end.
Proof.
  unfold assert_go.DeepEqual, assert_go.interfaceDiff,
    assert_go.interfaceDiff_texts, assert_go.diff, assert_go.normalize.
  destruct (reflect_DeepEqual expected actual); [reflexivity|].
  destruct (difflib_GetUnifiedDiffString _) as [d | err]; [|reflexivity].
  now rewrite bind_ret_l.
Qed.

(** C9: every method of an Assertions object runs as the free function
    of the same name on the sink the object stores, in package assert and
    in package require; the method of src/assert/assert.go is given a sink
    of its own and runs on the stored one all the same; [New] stores the
    sink it is given. *)
Theorem methods_run_as_free_functions
    (a : assert_part000.Assertions) (r : require_part002.Assertions)
    (g : assert_go.Assertions) (t' : TestingT)
    expected actual (b : bytes) (s1 s2 : string) msgAndArgs :
  (Assertions_DeepEqual a expected actual msgAndArgs
   = DeepEqual (assert_part000.t a) expected actual msgAndArgs
   /\ Assertions_DeepEqualJSON a expected actual msgAndArgs
      = DeepEqualJSON (assert_part000.t a) expected actual msgAndArgs
   /\ Assertions_MarshalsToJSON a b actual msgAndArgs
      = MarshalsToJSON (assert_part000.t a) b actual msgAndArgs
   /\ Assertions_LinesEqual a s1 s2 msgAndArgs
      = LinesEqual (assert_part000.t a) s1 s2 msgAndArgs)
  /\ (require_part002.Assertions_DeepEqual r expected actual msgAndArgs
      = require_part002.DeepEqual (require_part002.t r) expected actual msgAndArgs
      /\ require_part002.Assertions_DeepEqualJSON r expected actual msgAndArgs
         = require_part002.DeepEqualJSON (require_part002.t r) expected actual msgAndArgs
      /\ require_part002.Assertions_MarshalsToJSON r b actual msgAndArgs
         = require_part002.MarshalsToJSON (require_part002.t r) b actual msgAndArgs
      /\ require_part002.Assertions_LinesEqual r s1 s2 msgAndArgs
         = require_part002.LinesEqual (require_part002.t r) s1 s2 msgAndArgs
      /\ require_part002.Assertions_HTMLEqual r expected actual msgAndArgs
         = require_part002.HTMLEqual (require_part002.t r) expected actual msgAndArgs)
  /\ assert_go.Assertions_DeepEqual g t' expected actual msgAndArgs
     = assert_go.DeepEqual (assert_go.t g) expected actual msgAndArgs
  /\ (forall s, assert_part000.t (assert_part000.New s) = s
                /\ require_part002.t (require_part002.New s) = s
                /\ assert_go.t (assert_go.New s) = s).
Proof. repeat split; reflexivity. Qed.

End deepequal_properties.

Section html_properties.
Context `{GoLibrary}.
Import assert_part000.





(** C10: a typed-nil tree handle is normalized without error and
    returned as it is; HTMLEqual on two typed-nil handles reports
    nothing and returns true; an untyped nil on either side is reported
    as an unknown type and halts the test. *)
Theorem HTMLEqual_typed_nil_accepted t msgAndArgs :
  toHTMLNode (VNode None) = inl None
  /\ HTMLEqual t (VNode None) (VNode None) msgAndArgs = ([], Returns true)
  /\ (forall actual,
        HTMLEqual t VNil actual msgAndArgs
        = ([EvErrorf t "invalid expected document: %s" ["unknown type: <nil>"];
            EvFailNow t], Halts))
  /\ (forall n,
        HTMLEqual t (VNode n) VNil msgAndArgs
        = ([EvErrorf t "invalid actual document: %s" ["unknown type: <nil>"];
            EvFailNow t], Halts)).
Proof. repeat split; reflexivity. Qed.

End html_properties.

(** ** The require forms *)

Section require_properties.
Context `{GoLibrary}.

(** The shape shared by the require forms: the assert form is run, and
    [FailNow] follows when it returned false. *)
Lemma escalate_run t (c : run bool) :
  (ok <- c ;; if negb ok then FailNow t else ret tt)
  = match c with
    | (l, Returns true) => (l, Returns tt)
    | (l, Returns false) => ((l ++ [EvFailNow t])%list, Halts)
    | (l, Halts) => (l, Halts)
    | (l, Panics msg) => (l, Panics msg)
    end.
Proof.
  destruct c as [l [[|]| |msg]]; unfold bind, ret, FailNow; simpl;
    try reflexivity.
  now rewrite app_nil_r.
Qed.

(** A require form makes the reports of its assert form; it returns when
    the assert form returned true, and calls [FailNow] on the sink, and is
    halted, when the assert form returned false. *)
Lemma require_forms_escalate t expected actual s1 s2 b msgAndArgs :
  let escalate (c : run bool) : run unit :=
    match c with
    | (l, Returns true) => (l, Returns tt)
    | (l, Returns false) => ((l ++ [EvFailNow t])%list, Halts)
    | (l, Halts) => (l, Halts)
    | (l, Panics msg) => (l, Panics msg)
    end in
  require_part002.DeepEqual t expected actual msgAndArgs
  = escalate (assert_part000.DeepEqual t expected actual msgAndArgs)
  /\ require_part002.DeepEqualJSON t expected actual msgAndArgs
     = escalate (assert_part000.DeepEqualJSON t expected actual msgAndArgs)
  /\ require_part002.MarshalsToJSON t b actual msgAndArgs
     = escalate (assert_part000.MarshalsToJSON t b actual msgAndArgs)
  /\ require_part002.LinesEqual t s1 s2 msgAndArgs
     = escalate (assert_part000.LinesEqual t s1 s2 msgAndArgs)
  /\ require_part002.HTMLEqual t expected actual msgAndArgs
     = escalate (assert_part000.HTMLEqual t expected actual msgAndArgs).
Proof. cbv zeta. repeat split; apply escalate_run. Qed.

(** C7, at the failing input: when the expected value does not marshal
    and the actual value marshals to a text that does not decode to nil,
    the require form of DeepEqualJSON makes two reports on the sink, the
    marshaling error and then the difference, before it halts the
    test. *)
Theorem require_DeepEqualJSON_reports_twice
    t expected actual msgAndArgs err err0 output d :
  json_MarshalIndent expected "" "    " = inr err ->
  json_Unmarshal [] = inr err0 ->
  json_MarshalIndent actual "" "    " = inl output ->
  reflect_DeepEqual VNil (assert_part000.decoded output) = false ->
  difflib_GetUnifiedDiffString
    (assert_part000.udiff "" (string_of_bytes output)) = inl d ->
  exists e1 e2,
    reports_failure t ("Error marshaling JSON: " +:+ err +:+ LF) e1
    /\ reports_failure t "JSON representations differ" e2
    /\ require_part002.DeepEqualJSON t expected actual msgAndArgs
       = ([e1; e2; EvFailNow t], Halts).
Proof.
  intros Hm H0 Ha Hd Hdiff.
  destruct (DeepEqualJSON_marshal_error_differ
              t expected actual msgAndArgs err err0 output d Hm H0 Ha Hd Hdiff)
    as (e1 & e2 & Hr1 & Hr2 & Hrun).
  exists e1, e2. repeat split; try assumption.
  unfold require_part002.DeepEqualJSON. rewrite escalate_run, Hrun.
  reflexivity.
Qed.

End require_properties.

(** ** The text differ *)

Lemma HasSuffix_LF (s : string) : HasSuffix s LF = ends_with_LF s.
Proof.
  unfold HasSuffix, LF. cbn [String.length].
  induction s as [|c s IH]; [reflexivity|].
  destruct s as [|c' s'].
  - cbn. destruct (Ascii.eqb_spec c "010") as [->|Hne].
    + reflexivity.
    + reflexivity.
  - change (ends_with_LF (String c (String c' s')))
      with (ends_with_LF (String c' s')).
    rewrite <- IH. cbn [String.length Nat.leb Nat.sub andb substring].
    rewrite Nat.sub_0_r. reflexivity.
Qed.

Lemma ends_with_LF_app (s : string) : ends_with_LF (s +:+ LF) = true.
Proof.
  induction s as [|c s IH]; [reflexivity|].
  simpl. destruct (s +:+ LF) eqn:Hs; [|exact IH].
  destruct s; discriminate Hs.
Qed.

Lemma spec_terminate_terminated (s : string) :
  ends_with_LF (spec_terminate s) = true.
Proof.
  unfold spec_terminate. destruct (ends_with_LF s) eqn:Hs; [exact Hs|].
  apply ends_with_LF_app.
Qed.

Lemma SplitAfter_nonempty (s : string) (sep : ascii) : SplitAfter s sep <> [].
Proof.
  induction s as [|c s IH]; simpl; [discriminate|].
  destruct (Ascii.eqb c sep); [discriminate|].
  destruct (SplitAfter s sep); [contradiction | discriminate].
Qed.

(** Nothing is dropped by the split: the pieces put together are the
    text. *)
Lemma SplitAfter_concat (s : string) (sep : ascii) :
  String.concat "" (SplitAfter s sep) = s.
Proof.
  induction s as [|c s IH]; [reflexivity|].
  simpl. pose proof (SplitAfter_nonempty s sep) as Hne.
  destruct (Ascii.eqb c sep).
  - destruct (SplitAfter s sep) as [|l ls]; [contradiction|].
    change (String.concat "" (String c "" :: l :: ls))
      with (String c "" +:+ "" +:+ String.concat "" (l :: ls)).
    rewrite IH. reflexivity.
  - destruct (SplitAfter s sep) as [|l ls]; [contradiction|].
    destruct ls as [|l' ls'].
    + simpl in *. now rewrite IH.
    + change (String.concat "" (String c l :: l' :: ls'))
        with (String c l +:+ "" +:+ String.concat "" (l' :: ls')).
      change (String.concat "" (l :: l' :: ls'))
        with (l +:+ "" +:+ String.concat "" (l' :: ls')) in IH.
      rewrite <- IH. reflexivity.
Qed.

(** Every piece but the last keeps its terminator, and the last piece
    has none. *)
Lemma SplitAfter_lines (s : string) (sep : ascii) :
  forallb (terminated_line sep) (removelast (SplitAfter s sep)) = true
  /\ free_of sep (List.last (SplitAfter s sep) "") = true.
Proof.
  induction s as [|c s [IH1 IH2]]; [split; reflexivity|].
  simpl. pose proof (SplitAfter_nonempty s sep) as Hne.
  destruct (Ascii.eqb c sep) eqn:Hc.
  - destruct (SplitAfter s sep) as [|l ls]; [contradiction|].
    split.
    + change (removelast (String c "" :: l :: ls))
        with (String c "" :: removelast (l :: ls)).
      cbn [forallb terminated_line]. now rewrite Hc, IH1.
    + exact IH2.
  - destruct (SplitAfter s sep) as [|l ls]; [contradiction|].
    destruct ls as [|l' ls'].
    + split; [reflexivity|]. simpl in *. now rewrite Hc, IH2.
    + split.
      * change (removelast (String c l :: l' :: ls'))
          with (String c l :: removelast (l' :: ls')).
        change (removelast (l :: l' :: ls'))
          with (l :: removelast (l' :: ls')) in IH1.
        cbn [forallb] in *. apply andb_true_iff in IH1 as [Hl Hls].
        rewrite Hls, andb_true_r.
        destruct l as [|a l]; [discriminate Hl|].
        change (negb (Ascii.eqb c sep) && terminated_line sep (String a l) = true).
        now rewrite Hc, Hl.
      * exact IH2.
Qed.

Section diff_properties.
Context `{GoLibrary}.

Lemma udiff_spec (expected actual : string) :
  assert_part000.udiff expected actual = spec_udiff expected actual.
Proof.
  unfold assert_part000.udiff, spec_udiff, spec_terminate.
  rewrite !HasSuffix_LF.
  now destruct (ends_with_LF expected), (ends_with_LF actual).
Qed.

(** C3, as the code has it: in src/unnamed/part_000 the differ gives
    each text that lacks a trailing line feed exactly one (a text that has
    one is left as it is), splits both into pieces that keep their line
    feed and put together are the terminated text, and asks for a unified
    diff of the two lists with 2 lines of context and the labels expected
    and actual; in src/assert/assert.go the texts are split as they
    are. *)
Theorem diff_terminates_and_splits (expected actual : string) :
  assert_part000.udiff expected actual = spec_udiff expected actual
  /\ assert_part000.diff expected actual
     = match difflib_GetUnifiedDiffString (spec_udiff expected actual) with
       | inl d => ret d
       | inr err => panic ("Error producing diff: " +:+ err)
       end
  /\ (forall s,
        ends_with_LF (spec_terminate s) = true
        /\ spec_terminate s = (if ends_with_LF s then s else s +:+ LF)
        /\ String.concat "" (SplitAfter (spec_terminate s) "010")
           = spec_terminate s
        /\ forallb (terminated_line "010")
             (removelast (SplitAfter (spec_terminate s) "010")) = true
        /\ List.last (SplitAfter (spec_terminate s) "010") "x" = "")
  /\ assert_go.udiff expected actual
     = {| A := SplitAfter expected "010"; FromFile := "expected";
          B := SplitAfter actual "010"; ToFile := "actual"; Context := 2 |}.
Proof.
  split; [apply udiff_spec|]. split.
  { unfold assert_part000.diff. now rewrite udiff_spec. }
  split; [|reflexivity].
  intros s. split; [apply spec_terminate_terminated|].
  split; [reflexivity|]. split; [apply SplitAfter_concat|].
  split; [apply SplitAfter_lines|].
  generalize (spec_terminate_terminated s).
  generalize (spec_terminate s). clear. intros u.
  induction u as [|c u IH]; [discriminate|].
  intros Hu. simpl.
  destruct (Ascii.eqb_spec c "010") as [->|Hne].
  - destruct u as [|c' u']; [reflexivity|].
    pose proof (SplitAfter_nonempty (String c' u') "010") as Hn.
    destruct (SplitAfter (String c' u') "010") as [|l ls] eqn:Hsp;
      [contradiction|].
    change (List.last (l :: ls) "x" = ""). apply IH. exact Hu.
  - destruct u as [|c' u'].
    + simpl in Hu. apply Ascii.eqb_eq in Hu. contradiction.
    + pose proof (SplitAfter_nonempty (String c' u') "010") as Hn.
      specialize (IH Hu).
      destruct (SplitAfter (String c' u') "010") as [|l ls] eqn:Hsp;
        [contradiction|].
      destruct ls as [|l' ls']; [|exact IH].
      pose proof (SplitAfter_concat (String c' u') "010") as Hcat.
      rewrite Hsp in Hcat. simpl in IH, Hcat. congruence.
Qed.

End diff_properties.

(** ** The regular expressions *)

Section regexp_properties.
Import regexp.
#[local] Open Scope list_scope.

(** *** Matching *)

Lemma match_here_Lit c re s n :
  match_here (Lit c :: re) s = Some n <->
  exists s' n', s = c :: s' /\ match_here re s' = Some n' /\ n = S n'.
Proof.
  simpl. destruct s as [|c' s'].
  { split; [discriminate | intros (? & ? & ? & _); discriminate]. }
  destruct (Ascii.eqb_spec c c') as [<-|Hne].
  - split.
    + destruct (match_here re s') as [n'|] eqn:Hm; simpl; [|discriminate].
      intros [= <-]. exists s', n'. auto.
    + intros (s'' & n' & [= <-] & Hm & ->). rewrite Hm. reflexivity.
  - split; [discriminate|]. intros (? & ? & [= Hc _] & _). now destruct Hne.
Qed.

Lemma match_here_lits p re s n :
  match_here (lits p ++ re) s = Some n <->
  exists s' n', s = (chars p ++ s')%list /\ match_here re s' = Some n'
                /\ n = (String.length p + n')%nat.
Proof.
  revert s n. induction p as [|c p IH]; intros s n.
  - simpl. split; [eauto | intros (? & ? & -> & -> & ->); reflexivity].
  - change (lits (String c p) ++ re)%list with (Lit c :: (lits p ++ re))%list.
    rewrite match_here_Lit. split.
    + intros (s' & n' & -> & Hm & ->). apply IH in Hm as (s'' & n'' & -> & Hm & ->).
      exists s'', n''. auto.
    + intros (s' & n' & -> & Hm & ->). exists (chars p ++ s')%list, (String.length p + n')%nat.
      split; [reflexivity|]. split; [|reflexivity]. apply IH. eauto.
Qed.

(** A repetition followed by a pattern that cannot start with a byte of
    the class takes the whole run of such bytes. *)
Lemma match_rep_spec cls (k : list ascii -> option nat) :
  (forall c s, cls c = true -> k (c :: s) = None) ->
  forall s lo hi n,
    match_rep cls lo hi k s = Some n <->
    exists d r m, s = (d ++ r)%list /\ forallb cls d = true
                  /\ (lo <= length d)%nat /\ within hi (length d)
                  /\ k r = Some m /\ n = (length d + m)%nat.
Proof.
  intros Hk s. induction s as [|c s IH]; intros lo hi n.
  - simpl. split.
    + destruct lo; [|discriminate]. intros Hn.
      exists [], [], n. repeat split; auto. destruct hi; simpl; lia.
    + intros (d & r & m & Hs & _ & Hlo & _ & Hm & ->).
      symmetry in Hs. apply app_eq_nil in Hs as [-> ->]. simpl in *.
      destruct lo; [assumption | lia].
  - cbn [match_rep]. split.
    + intros Hn.
      assert (Hstop : match lo with O => k (c :: s) | S _ => None end = Some n ->
                      exists d r m, c :: s = (d ++ r)%list /\ forallb cls d = true
                        /\ (lo <= length d)%nat /\ within hi (length d)
                        /\ k r = Some m /\ n = (length d + m)%nat).
      { destruct lo; [|discriminate]. intros Hn'.
        exists [], (c :: s), n. repeat split; auto. destruct hi; simpl; lia. }
      destruct (cls c) eqn:Hc; [|auto].
      destruct (bool_decide (hi = Some 0%nat)) eqn:Hhi; [auto|].
      cbn [andb negb] in Hn.
      destruct (match_rep cls (Nat.pred lo) (Nat.pred <$> hi) k s) as [n'|] eqn:Hin.
      * injection Hn as <-.
        apply IH in Hin as (d & r & m & -> & Hd & Hlo & Hw & Hm & ->).
        exists (c :: d), r, m. simpl. rewrite Hc, Hd. repeat split; auto; try lia.
        apply bool_decide_eq_false in Hhi.
        destruct hi as [[|h]|]; simpl in *; [congruence | lia | exact I].
      * destruct lo; [|discriminate]. rewrite (Hk c s Hc) in Hn. discriminate.
    + intros (d & r & m & Hs & Hd & Hlo & Hw & Hm & ->).
      destruct d as [|c' d].
      * simpl in Hs. subst r. simpl in Hlo.
        assert (lo = 0%nat) as -> by lia.
        destruct (cls c) eqn:Hc; [|exact Hm].
        rewrite (Hk c s Hc) in Hm. discriminate.
      * injection Hs as <- ->. simpl in Hd. apply andb_true_iff in Hd as [Hc Hd].
        rewrite Hc.
        assert (Hhi : bool_decide (hi = Some 0%nat) = false).
        { apply bool_decide_eq_false. intros ->. simpl in Hw. lia. }
        rewrite Hhi. cbn [andb negb].
        assert (Hin : match_rep cls (Nat.pred lo) (Nat.pred <$> hi) k (d ++ r)
                      = Some (length d + m)%nat).
        { apply IH. exists d, r, m. repeat split; auto.
          - simpl in Hlo. lia.
          - destruct hi as [h|]; simpl in *; [lia | exact I]. }
        rewrite Hin. reflexivity.
Qed.

Lemma match_close_paren s m :
  match_here (lits ")") s = Some m <-> exists r, s = chars ")" ++ r /\ m = 1%nat.
Proof.
  change (lits ")") with (lits ")" ++ []). rewrite match_here_lits. split.
  - intros (r & n' & -> & [= <-] & ->). eauto.
  - intros (r & -> & ->). exists r, 0%nat. auto.
Qed.

Lemma digit_not_close_paren c s :
  digit c = true -> match_here (lits ")") (c :: s) = None.
Proof.
  intros Hc. destruct (match_here (lits ")") (c :: s)) as [m|] eqn:Hm; [|reflexivity].
  apply match_close_paren in Hm as (r & [= -> _] & _). discriminate Hc.
Qed.

Lemma lower_hex_not_close_paren c s :
  lower_hex c = true -> match_here (lits ")") (c :: s) = None.
Proof.
  intros Hc. destruct (match_here (lits ")") (c :: s)) as [m|] eqn:Hm; [|reflexivity].
  apply match_close_paren in Hm as (r & [= -> _] & _). discriminate Hc.
Qed.

(** [capRE] matches at the head of a text exactly when the text starts
    with a capacity annotation, and it matches the whole annotation. *)
Lemma match_capRE s n :
  match_here assert_go.capRE s = Some n <->
  exists d r, s = cap_annotation d ++ r /\ cap_digits d
              /\ n = (5 + length d)%nat.
Proof.
  unfold assert_go.capRE. rewrite match_here_lits.
  change (match_here ([Rep digit 1 None] ++ lits ")"))
    with (match_rep digit 1 None (match_here (lits ")"))).
  split.
  - intros (s' & n' & -> & Hm & ->).
    apply (match_rep_spec digit _ digit_not_close_paren) in Hm
      as (d & r & m & -> & Hd & Hlo & _ & Hk & ->).
    apply match_close_paren in Hk as (r' & -> & ->).
    exists d, r'. unfold cap_annotation, cap_digits. rewrite <- !app_assoc.
    repeat split; auto; [|simpl; lia].
    intros ->. simpl in Hlo. lia.
  - intros (d & r & -> & [Hne Hd] & ->).
    exists (d ++ chars ")" ++ r), (length d + 1)%nat.
    unfold cap_annotation. rewrite <- !app_assoc. repeat split; [|simpl; lia].
    apply (match_rep_spec digit _ digit_not_close_paren).
    exists d, (chars ")" ++ r), 1%nat.
    repeat split; auto; try (apply match_close_paren; eauto).
    destruct d; [contradiction | simpl; lia].
Qed.

(** [addRE] matches at the head of a text exactly when the text starts
    with an address annotation, and it matches the whole annotation. *)
Lemma match_addRE s n :
  match_here assert_go.addRE s = Some n <->
  exists h r, s = addr_annotation h ++ r /\ addr_digits h
              /\ n = (4 + length h)%nat.
Proof.
  unfold assert_go.addRE. rewrite match_here_lits.
  change (match_here ([Rep lower_hex 6 (Some 10%nat)] ++ lits ")"))
    with (match_rep lower_hex 6 (Some 10%nat) (match_here (lits ")"))).
  split.
  - intros (s' & n' & -> & Hm & ->).
    apply (match_rep_spec lower_hex _ lower_hex_not_close_paren) in Hm
      as (h & r & m & -> & Hh & Hlo & Hhi & Hk & ->).
    apply match_close_paren in Hk as (r' & -> & ->).
    exists h, r'. unfold addr_annotation, addr_digits. rewrite <- !app_assoc.
    simpl in Hhi. repeat split; auto; simpl; lia.
  - intros (h & r & -> & [[Hlo Hhi] Hh] & ->).
    exists (h ++ chars ")" ++ r), (length h + 1)%nat.
    unfold addr_annotation. rewrite <- !app_assoc. repeat split; [|simpl; lia].
    apply (match_rep_spec lower_hex _ lower_hex_not_close_paren).
    exists h, (chars ")" ++ r), 1%nat.
    repeat split; auto; try (apply match_close_paren; eauto).
Qed.

(** *** Replacing *)

Lemma replace_from_skip re repl k s :
  replace_from re repl k s = replace_from re repl 0 (drop k s).
Proof.
  revert k. induction s as [|c s IH]; intros [|k]; try reflexivity.
  simpl. apply IH.
Qed.

Lemma replace_from_match re repl u r n :
  length u = S n ->
  match_here re (u ++ r) = Some (S n) ->
  replace_from re repl 0 (u ++ r) = repl ++ replace_from re repl 0 r.
Proof.
  intros Hlen Hm. destruct u as [|c u]; [discriminate Hlen|].
  injection Hlen as Hlen.
  change ((c :: u) ++ r) with (c :: (u ++ r)) in *.
  cbn [replace_from]. rewrite Hm, replace_from_skip. subst n.
  now rewrite drop_app_length.
Qed.

Lemma replace_from_no_match re repl c s :
  match_here re (c :: s) = None ->
  replace_from re repl 0 (c :: s) = c :: replace_from re repl 0 s.
Proof. intros Hm. cbn [replace_from]. now rewrite Hm. Qed.

Lemma cap_annotation_length d : length (cap_annotation d) = S (4 + length d).
Proof. unfold cap_annotation. rewrite !length_app. simpl. lia. Qed.

Lemma addr_annotation_length h : length (addr_annotation h) = S (3 + length h).
Proof. unfold addr_annotation. rewrite !length_app. simpl. lia. Qed.

(** A capacity annotation is replaced by [cap=X], closing parenthesis
    included, and the scan goes on after it. *)
Lemma cap_pass_annotation d r :
  cap_digits d ->
  cap_pass (cap_annotation d ++ r) = chars assert_go.capRepl ++ cap_pass r.
Proof.
  intros Hd. apply (replace_from_match _ _ _ _ (4 + length d)).
  - apply cap_annotation_length.
  - apply match_capRE. exists d, r. auto.
Qed.

(** An address annotation is replaced by [(0xXXXXXXXXXX)], and the scan
    goes on after it. *)
Lemma addr_pass_annotation h r :
  addr_digits h ->
  addr_pass (addr_annotation h ++ r) = chars assert_go.addRepl ++ addr_pass r.
Proof.
  intros Hh. apply (replace_from_match _ _ _ _ (3 + length h)).
  - apply addr_annotation_length.
  - apply match_addRE. exists h, r. auto.
Qed.

Lemma match_capRE_cases s :
  match_here assert_go.capRE s = None
  \/ exists d r, s = cap_annotation d ++ r /\ cap_digits d.
Proof.
  destruct (match_here assert_go.capRE s) as [n|] eqn:Hm; [right | now left].
  apply match_capRE in Hm as (d & r & -> & Hd & _). eauto.
Qed.

Lemma match_addRE_cases s :
  match_here assert_go.addRE s = None
  \/ exists h r, s = addr_annotation h ++ r /\ addr_digits h.
Proof.
  destruct (match_here assert_go.addRE s) as [n|] eqn:Hm; [right | now left].
  apply match_addRE in Hm as (h & r & -> & Hh & _). eauto.
Qed.

Lemma cap_pass_other c s :
  c <> "c"%char -> cap_pass (c :: s) = c :: cap_pass s.
Proof.
  intros Hc. apply replace_from_no_match.
  destruct (match_capRE_cases (c :: s)) as [Hm | (d & r & Heq & _)]; [exact Hm|].
  injection Heq as -> _. contradiction.
Qed.

(** No capacity annotation starts inside an address annotation: the
    first pass copies it. *)
Lemma cap_pass_hex h r :
  forallb lower_hex h = true ->
  cap_pass (h ++ chars ")" ++ r) = h ++ chars ")" ++ cap_pass r.
Proof.
  induction h as [|a h IH]; intros Hh.
  - apply cap_pass_other. discriminate.
  - simpl in Hh. apply andb_true_iff in Hh as [Ha Hh].
    change ((a :: h) ++ chars ")" ++ r) with (a :: (h ++ chars ")" ++ r)).
    change ((a :: h) ++ chars ")" ++ cap_pass r)
      with (a :: (h ++ chars ")" ++ cap_pass r)).
    rewrite <- (IH Hh). apply replace_from_no_match.
    destruct (match_capRE_cases (a :: h ++ chars ")" ++ r))
      as [Hm | (d & r' & Heq & _)]; [exact Hm|].
    exfalso. unfold cap_annotation in Heq. simpl in Heq.
    injection Heq as -> Heq.
    destruct h as [|b h]; [discriminate Heq|]. injection Heq as -> Heq.
    destruct h as [|p h]; [discriminate Heq|]. injection Heq as -> Heq.
    simpl in Hh. discriminate Hh.
Qed.

Lemma cap_pass_addr_annotation h r :
  addr_digits h ->
  cap_pass (addr_annotation h ++ r) = addr_annotation h ++ cap_pass r.
Proof.
  intros [_ Hh]. unfold addr_annotation. rewrite <- !app_assoc. simpl.
  rewrite !cap_pass_other by discriminate.
  do 3 f_equal. apply (cap_pass_hex h r Hh).
Qed.

(** *** Texts that differ in their annotations only *)

Lemma addr_eq_sym s t : addr_eq s t -> addr_eq t s.
Proof.
  induction 1;
    [apply addr_eq_nil | now apply addr_eq_byte | now apply addr_eq_addr].
Qed.

Lemma volatile_eq_sym s t : volatile_eq s t -> volatile_eq t s.
Proof.
  induction 1;
    [ apply volatile_eq_nil | now apply volatile_eq_byte
    | now apply volatile_eq_cap | now apply volatile_eq_addr ].
Qed.

Lemma volatile_eq_refl s : volatile_eq s s.
Proof.
  induction s; [apply volatile_eq_nil | now apply volatile_eq_byte].
Qed.

Lemma addr_eq_app u s t : addr_eq s t -> addr_eq (u ++ s) (u ++ t).
Proof. intros Hst. induction u; simpl; [exact Hst | now apply addr_eq_byte]. Qed.

(** The digits of an annotation end at its closing parenthesis. *)
Lemma digits_unique cls (d d' r r' : list ascii) :
  cls ")"%char = false ->
  forallb cls d = true -> forallb cls d' = true ->
  d ++ chars ")" ++ r = d' ++ chars ")" ++ r' -> d = d' /\ r = r'.
Proof.
  intros Hp. revert d'. induction d as [|a d IH]; intros [|a' d'] Hd Hd' Heq;
    simpl in *.
  - injection Heq as ->. auto.
  - injection Heq as <- _. rewrite Hp in Hd'. discriminate Hd'.
  - injection Heq as -> _. rewrite Hp in Hd. discriminate Hd.
  - injection Heq as -> Heq.
    apply andb_true_iff in Hd as [_ Hd]. apply andb_true_iff in Hd' as [_ Hd'].
    destruct (IH d' Hd Hd' Heq) as [-> ->]. auto.
Qed.

(** A stretch of bytes that starts no annotation is the same on both
    sides. *)
Lemma addr_eq_prefix u r t :
  Forall (fun c => c <> "("%char) u ->
  addr_eq (u ++ r) t -> exists r', t = u ++ r' /\ addr_eq r r'.
Proof.
  intros Hu. revert t. induction Hu as [|c u Hc _ IH]; intros t Ht.
  - exists t. auto.
  - remember ((c :: u) ++ r) as w eqn:Hw.
    destruct Ht as [ | c0 s0 t0 H0 | h h' s0 t0 _ _ _].
    + discriminate Hw.
    + injection Hw as -> ->.
      destruct (IH t0 H0) as (r' & -> & Hr). exists r'. auto.
    + unfold addr_annotation in Hw. simpl in Hw. injection Hw as Hw _.
      now destruct Hc.
Qed.

Lemma volatile_eq_prefix u r t :
  Forall (fun c => c <> "("%char /\ c <> "c"%char) u ->
  volatile_eq (u ++ r) t -> exists r', t = u ++ r' /\ volatile_eq r r'.
Proof.
  intros Hu. revert t. induction Hu as [|c u [Hc Hc'] _ IH]; intros t Ht.
  - exists t. auto.
  - remember ((c :: u) ++ r) as w eqn:Hw.
    destruct Ht as [ | c0 s0 t0 H0 | d d' s0 t0 _ _ _ | h h' s0 t0 _ _ _].
    + discriminate Hw.
    + injection Hw as -> ->.
      destruct (IH t0 H0) as (r' & -> & Hr). exists r'. auto.
    + unfold cap_annotation in Hw. simpl in Hw. injection Hw as Hw _.
      now destruct Hc'.
    + unfold addr_annotation in Hw. simpl in Hw. injection Hw as Hw _.
      now destruct Hc.
Qed.

Lemma hex_no_open_paren h :
  forallb lower_hex h = true -> Forall (fun c => c <> "("%char) h.
Proof.
  intros Hh. apply List.Forall_forall. intros c Hin ->.
  rewrite forallb_forall in Hh. specialize (Hh _ Hin). discriminate Hh.
Qed.

Lemma digits_no_start d :
  forallb digit d = true ->
  Forall (fun c => c <> "("%char /\ c <> "c"%char) d.
Proof.
  intros Hd. apply List.Forall_forall. intros c Hin.
  rewrite forallb_forall in Hd. specialize (Hd _ Hin).
  split; intros ->; discriminate Hd.
Qed.

(** A text that starts with an address annotation is matched by a text
    that starts with one too. *)
Lemma addr_eq_annotation h r t :
  addr_digits h ->
  addr_eq (addr_annotation h ++ r) t ->
  exists h' r', t = addr_annotation h' ++ r' /\ addr_digits h' /\ addr_eq r r'.
Proof.
  intros Hh Ht. remember (addr_annotation h ++ r) as w eqn:Hw.
  destruct Ht as [ | c0 s0 t0 H0 | h0 h' s0 t0 Hh0 Hh' H0].
  - unfold addr_annotation in Hw. discriminate Hw.
  - unfold addr_annotation in Hw. rewrite <- !app_assoc in Hw. simpl in Hw.
    injection Hw as -> ->.
    destruct (addr_eq_prefix (chars "0x" ++ h ++ chars ")") r t0)
      as (r' & -> & Hr).
    + destruct Hh as [_ Hh]. repeat constructor; try discriminate.
      apply Forall_app. split; [now apply hex_no_open_paren|].
      repeat constructor. discriminate.
    + rewrite <- !app_assoc. exact H0.
    + exists h, r'. unfold addr_annotation. rewrite <- !app_assoc. auto.
  - unfold addr_annotation in Hw. rewrite <- !app_assoc in Hw.
    simpl in Hw. injection Hw as Hw.
    destruct Hh as [Hlen Hh], Hh0 as [Hlen0 Hh0].
    destruct (digits_unique lower_hex h0 h s0 r eq_refl Hh0 Hh Hw) as [-> ->].
    exists h', t0. unfold addr_digits. auto.
Qed.

(** A text that starts with a capacity annotation is matched by a text
    that starts with one too. *)
Lemma volatile_eq_cap_annotation d r t :
  cap_digits d ->
  volatile_eq (cap_annotation d ++ r) t ->
  exists d' r', t = cap_annotation d' ++ r' /\ cap_digits d' /\ volatile_eq r r'.
Proof.
  intros Hd Ht. remember (cap_annotation d ++ r) as w eqn:Hw.
  destruct Ht as [ | c0 s0 t0 H0 | d0 d' s0 t0 Hd0 Hd' H0 | h h' s0 t0 _ _ _].
  - unfold cap_annotation in Hw. discriminate Hw.
  - unfold cap_annotation in Hw. rewrite <- !app_assoc in Hw. simpl in Hw.
    injection Hw as -> ->.
    destruct (volatile_eq_prefix (chars "ap=" ++ d ++ chars ")") r t0)
      as (r' & -> & Hr).
    + destruct Hd as [_ Hd]. repeat constructor; try discriminate.
      apply Forall_app. split; [now apply digits_no_start|].
      repeat constructor; discriminate.
    + rewrite <- !app_assoc. exact H0.
    + exists d, r'. unfold cap_annotation. rewrite <- !app_assoc. auto.
  - unfold cap_annotation in Hw. rewrite <- !app_assoc in Hw.
    simpl in Hw. injection Hw as Hw.
    destruct Hd as [Hne Hd], Hd0 as [Hne0 Hd0].
    destruct (digits_unique digit d0 d s0 r eq_refl Hd0 Hd Hw) as [-> ->].
    exists d', t0. unfold cap_digits. auto.
  - unfold cap_annotation, addr_annotation in Hw. discriminate Hw.
Qed.

(** *** The two passes *)

(** The second pass makes two texts equal that differ in the digits of
    their address annotations only. *)
Lemma addr_pass_addr_eq n s t :
  (length s <= n)%nat -> addr_eq s t -> addr_pass s = addr_pass t.
Proof.
  revert s t. induction n as [|n IH]; intros s t Hlen Hst.
  { destruct Hst as [ | c s t _ | h h' s t _ _ _]; [reflexivity|..].
    - simpl in Hlen. lia.
    - rewrite length_app, addr_annotation_length in Hlen. lia. }
  destruct Hst as [ | c s t Hst | h h' s t Hh Hh' Hst].
  - reflexivity.
  - simpl in Hlen.
    destruct (match_addRE_cases (c :: s)) as [Hm | (h & r & Heq & Hh)].
    + destruct (match_addRE_cases (c :: t)) as [Hm' | (h' & r' & Heq' & Hh')].
      * unfold addr_pass. rewrite !replace_from_no_match by assumption.
        f_equal. apply IH; [lia | exact Hst].
      * assert (Hts : addr_eq (addr_annotation h' ++ r') (c :: s)).
        { rewrite <- Heq'. apply addr_eq_sym. now apply addr_eq_byte. }
        apply addr_eq_annotation in Hts as (h & r & Heq & Hh & _); [|exact Hh'].
        assert (Hsome : match_here assert_go.addRE (c :: s)
                        = Some (4 + length h)%nat).
        { apply match_addRE. exists h, r. auto. }
        rewrite Hm in Hsome. discriminate Hsome.
    + assert (Hst' : addr_eq (addr_annotation h ++ r) (c :: t)).
      { rewrite <- Heq. now apply addr_eq_byte. }
      apply addr_eq_annotation in Hst' as (h' & r' & Heq' & Hh' & Hr);
        [|exact Hh].
      rewrite Heq, Heq', !addr_pass_annotation by assumption.
      f_equal. apply IH; [|exact Hr].
      assert (Hl : length (c :: s) = length (addr_annotation h ++ r))
        by now rewrite Heq.
      rewrite length_app, addr_annotation_length in Hl. simpl in Hl. lia.
  - rewrite !addr_pass_annotation by assumption.
    f_equal. apply IH; [|exact Hst].
    rewrite length_app, addr_annotation_length in Hlen. lia.
Qed.

(** The first pass leaves two texts that differ in the digits of their
    address annotations only. *)
Lemma cap_pass_volatile_eq n s t :
  (length s <= n)%nat -> volatile_eq s t -> addr_eq (cap_pass s) (cap_pass t).
Proof.
  revert s t. induction n as [|n IH]; intros s t Hlen Hst.
  { destruct Hst as [ | c s t _ | d d' s t _ _ _ | h h' s t _ _ _];
      [apply addr_eq_nil|..].
    - simpl in Hlen. lia.
    - rewrite length_app, cap_annotation_length in Hlen. lia.
    - rewrite length_app, addr_annotation_length in Hlen. lia. }
  destruct Hst as [ | c s t Hst | d d' s t Hd Hd' Hst | h h' s t Hh Hh' Hst].
  - apply addr_eq_nil.
  - simpl in Hlen.
    destruct (match_capRE_cases (c :: s)) as [Hm | (d & r & Heq & Hd)].
    + destruct (match_capRE_cases (c :: t)) as [Hm' | (d' & r' & Heq' & Hd')].
      * unfold cap_pass. rewrite !replace_from_no_match by assumption.
        apply addr_eq_byte. apply IH; [lia | exact Hst].
      * assert (Hts : volatile_eq (cap_annotation d' ++ r') (c :: s)).
        { rewrite <- Heq'. apply volatile_eq_sym. now apply volatile_eq_byte. }
        apply volatile_eq_cap_annotation in Hts as (d & r & Heq & Hd & _);
          [|exact Hd'].
        assert (Hsome : match_here assert_go.capRE (c :: s)
                        = Some (5 + length d)%nat).
        { apply match_capRE. exists d, r. auto. }
        rewrite Hm in Hsome. discriminate Hsome.
    + assert (Hst' : volatile_eq (cap_annotation d ++ r) (c :: t)).
      { rewrite <- Heq. now apply volatile_eq_byte. }
      apply volatile_eq_cap_annotation in Hst' as (d' & r' & Heq' & Hd' & Hr);
        [|exact Hd].
      rewrite Heq, Heq', !cap_pass_annotation by assumption.
      apply addr_eq_app. apply IH; [|exact Hr].
      assert (Hl : length (c :: s) = length (cap_annotation d ++ r))
        by now rewrite Heq.
      rewrite length_app, cap_annotation_length in Hl. simpl in Hl. lia.
  - rewrite !cap_pass_annotation by assumption.
    apply addr_eq_app. apply IH; [|exact Hst].
    rewrite length_app, cap_annotation_length in Hlen. lia.
  - rewrite !cap_pass_addr_annotation by assumption.
    apply addr_eq_addr; try assumption. apply IH; [|exact Hst].
    rewrite length_app, addr_annotation_length in Hlen. lia.
Qed.

Lemma normalize_passes (dump : string) :
  assert_go.normalize dump
  = string_of_list_ascii (addr_pass (cap_pass (chars dump))).
Proof.
  unfold assert_go.normalize, ReplaceAllString, addr_pass, cap_pass, chars.
  now rewrite list_ascii_of_string_of_list_ascii.
Qed.

(** Two dumps that differ in their volatile annotations only are
    normalized to one text. *)
Lemma normalize_volatile_eq (e a : string) :
  volatile_eq (chars e) (chars a) ->
  assert_go.normalize e = assert_go.normalize a.
Proof.
  intros Hv. rewrite !normalize_passes. f_equal.
  apply (addr_pass_addr_eq (length (cap_pass (chars e)))); [lia|].
  apply (cap_pass_volatile_eq (length (chars e))); [lia | exact Hv].
Qed.

End regexp_properties.

Section dump_properties.
Context `{GoLibrary}.

(** C1, as the code has it: in src/assert/assert.go each dump is
    normalized before the diff, every capacity annotation [cap=N)]
    becoming [cap=X] and every address annotation of 6 to 10 hexadecimal
    digits becoming [(0xXXXXXXXXXX)], so that two values whose dumps differ
    in such annotations only have one and the same text handed to the
    differ; in src/unnamed/part_000 the dumps are handed over as they
    are. *)
Theorem interfaceDiff_normalizes_dumps (expected actual : value) :
  assert_go.interfaceDiff_texts expected actual
  = (assert_go.normalize (spew_Sdump assert_go.scs expected),
     assert_go.normalize (spew_Sdump assert_go.scs actual))
  /\ (volatile_eq (chars (spew_Sdump assert_go.scs expected))
                  (chars (spew_Sdump assert_go.scs actual)) ->
      (assert_go.interfaceDiff_texts expected actual).1
      = (assert_go.interfaceDiff_texts expected actual).2)
  /\ (forall dump, assert_go.normalize dump
                   = string_of_list_ascii (addr_pass (cap_pass (chars dump))))
  /\ (forall d r, cap_digits d ->
        cap_pass (cap_annotation d ++ r)%list
        = (chars "cap=X" ++ cap_pass r)%list)
  /\ (forall h r, addr_digits h ->
        addr_pass (addr_annotation h ++ r)%list
        = (chars "(0xXXXXXXXXXX)" ++ addr_pass r)%list)
  /\ assert_part000.interfaceDiff_texts expected actual
     = (spew_Sdump assert_part000.scs expected,
        spew_Sdump assert_part000.scs actual).
Proof.
  split; [reflexivity|]. split.
  { intros Hv. apply (normalize_volatile_eq _ _ Hv). }
  split; [apply normalize_passes|].
  split; [apply cap_pass_annotation|].
  split; [apply addr_pass_annotation | reflexivity].
Qed.

End dump_properties.

(** * Further properties of the checks *)

Section reporter_extras.
Context `{GoLibrary}.
Import assert_part000.

Lemma reports_failure_Errorf t description e :
  reports_failure t description e -> exists format args, e = EvErrorf t format args.
Proof.
  destruct e as [t' format args|t']; simpl; [|contradiction].
  intros [-> _]. eauto.
Qed.

(** The failure reporter makes exactly one call on its sink, a report
    that carries the description, never [FailNow], and returns false; with
    an empty diff [FailDiff] is [Fail]; a diff that is not empty is in the
    text of the report, indented, and so is a message that is not
    empty. *)
Theorem FailDiff_reports_and_returns t failureMessage d msgAndArgs :
  (exists format args,
     FailDiff t failureMessage d msgAndArgs
     = ([EvErrorf t format args], Returns false)
     /\ (In (indentMessageLines failureMessage 2) args
         \/ contains format (indentMessageLines failureMessage 2))
     /\ (d <> "" -> contains format (indentMessageLines d 3))
     /\ (d <> "" -> messageFromMsgAndArgs msgAndArgs <> "" ->
         contains format (messageFromMsgAndArgs msgAndArgs)))
  /\ FailDiff t failureMessage "" msgAndArgs = Fail t failureMessage msgAndArgs
  /\ (exists format args,
        Fail t failureMessage msgAndArgs
        = ([EvErrorf t format args], Returns false)
        /\ In (indentMessageLines failureMessage 2) args
        /\ (messageFromMsgAndArgs msgAndArgs <> "" ->
            In (messageFromMsgAndArgs msgAndArgs) args)).
Proof.
  assert (HFail : exists format args,
             Fail t failureMessage msgAndArgs
             = ([EvErrorf t format args], Returns false)
             /\ In (indentMessageLines failureMessage 2) args
             /\ (messageFromMsgAndArgs msgAndArgs <> "" ->
                 In (messageFromMsgAndArgs msgAndArgs) args)).
  { unfold Fail.
    destruct (messageFromMsgAndArgs msgAndArgs) as [|c msg] eqn:Hmsg.
    - do 2 eexists. split; [reflexivity|]. split; [simpl; auto|].
      intros Hne. now destruct Hne.
    - do 2 eexists. split; [reflexivity|]. simpl. auto 6. }
  split; [|split; [reflexivity | exact HFail]].
  unfold FailDiff. destruct (String.eqb_spec d "") as [->|Hd].
  - destruct HFail as (format & args & -> & Hin & _).
    exists format, args. split; [reflexivity|]. split; [auto|].
    split; intros Hne; now destruct Hne.
  - do 2 eexists. split; [reflexivity|].
    assert (Hlen : (0 <? String.length d)%nat = true).
    { destruct d; [now destruct Hd | reflexivity]. }
    rewrite Hlen. split; [|split].
    + right.
      destruct (0 <? String.length (messageFromMsgAndArgs msgAndArgs))%nat;
        find_contains.
    + intros _.
      destruct (0 <? String.length (messageFromMsgAndArgs msgAndArgs))%nat;
        find_contains.
    + intros _ Hmsg.
      assert (Hl : (0 <? String.length (messageFromMsgAndArgs msgAndArgs))%nat = true).
      { destruct (messageFromMsgAndArgs msgAndArgs); [now destruct Hmsg | reflexivity]. }
      rewrite Hl. find_contains.
Qed.

(** A diff followed by the report of a failure: one report and false,
    or the panic of a differ that failed, with no call on the sink. *)
Lemma diff_then_FailDiff t description x y msgAndArgs :
  (exists e,
     (d <- diff x y ;; FailDiff t description d msgAndArgs)
     = ([e], Returns false)
     /\ reports_failure t description e)
  \/ (exists err,
        difflib_GetUnifiedDiffString (udiff x y) = inr err
        /\ (d <- diff x y ;; FailDiff t description d msgAndArgs)
           = ([], Panics ("Error producing diff: " +:+ err))).
Proof.
  unfold diff. destruct (difflib_GetUnifiedDiffString (udiff x y)) as [d|err].
  - left. destruct (FailDiff_reports_once t description d msgAndArgs)
      as (e & HF & Hr).
    exists e. rewrite bind_ret_l. auto.
  - right. exists err. auto.
Qed.

(** LinesEqual returns true, with no call on the sink, exactly when the
    two texts are equal (so LinesEqual(s, s) passes for every text); on
    two different texts it makes one report described as "Strings differ"
    and returns false, unless the differ fails. *)
Theorem LinesEqual_iff_equal t expected actual msgAndArgs :
  (LinesEqual t expected actual msgAndArgs = ([], Returns true)
   <-> expected = actual)
  /\ LinesEqual t expected expected msgAndArgs = ([], Returns true)
  /\ (expected <> actual ->
      (exists e,
         LinesEqual t expected actual msgAndArgs = ([e], Returns false)
         /\ reports_failure t "Strings differ" e)
      \/ (exists err,
            difflib_GetUnifiedDiffString (udiff expected actual) = inr err
            /\ LinesEqual t expected actual msgAndArgs
               = ([], Panics ("Error producing diff: " +:+ err)))).
Proof.
  assert (Hne : expected <> actual ->
    (exists e,
       LinesEqual t expected actual msgAndArgs = ([e], Returns false)
       /\ reports_failure t "Strings differ" e)
    \/ (exists err,
          difflib_GetUnifiedDiffString (udiff expected actual) = inr err
          /\ LinesEqual t expected actual msgAndArgs
             = ([], Panics ("Error producing diff: " +:+ err)))).
  { intros Hd. unfold LinesEqual.
    destruct (String.eqb_spec expected actual) as [Heq|_]; [contradiction|].
    apply diff_then_FailDiff. }
  split; [|split; [|exact Hne]].
  - split.
    + intros Hrun. destruct (String.eqb_spec expected actual) as [Heq|Hd];
        [exact Heq|].
      destruct (Hne Hd) as [(e & He & _) | (err & _ & He)];
        rewrite He in Hrun; discriminate Hrun.
    + intros ->. unfold LinesEqual. now rewrite String.eqb_refl.
  - unfold LinesEqual. now rewrite String.eqb_refl.
Qed.

(** [marshalJSON] always returns to its caller: with the encoding and no
    call on the sink when the value marshals, with a nil output after one
    report that carries the text of the error when it does not. *)
Theorem marshalJSON_reports_and_carries_on t i msgAndArgs :
  match json_MarshalIndent i "" "    " with
  | inl output => marshalJSON t i msgAndArgs = ([], Returns output)
  | inr err =>
      exists e,
        marshalJSON t i msgAndArgs = ([e], Returns [])
        /\ reports_failure t ("Error marshaling JSON: " +:+ err +:+ LF) e
  end.
Proof.
  destruct (json_MarshalIndent i "" "    ") as [output|err] eqn:Hm.
  - now apply marshalJSON_ok.
  - now apply marshalJSON_error.
Qed.

End reporter_extras.

Section assert_extras.
Context `{GoLibrary}.
Import assert_part000.

Lemma only_reports_on_nil t : only_reports_on t [].
Proof. constructor. Qed.

Lemma only_reports_on_one t description e :
  reports_failure t description e -> only_reports_on t [e].
Proof.
  intros Hr. constructor; [|constructor].
  now apply (reports_failure_Errorf t description).
Qed.

Lemma only_reports_on_app t l l' :
  only_reports_on t l -> only_reports_on t l' -> only_reports_on t (l ++ l')%list.
Proof. intros Hl Hl'. apply Forall_app. split; assumption. Qed.

Lemma never_halts_ret t (verdict : bool) : never_halts t (ret verdict).
Proof.
  split; [apply only_reports_on_nil|]. split; [left|]; simpl; eauto.
Qed.

Lemma never_halts_bind {T} t (l : list event) (a : T) (k : T -> run bool) :
  only_reports_on t l -> never_halts t (k a) ->
  never_halts t (bind (l, Returns a) k).
Proof.
  intros Hl (H1 & H2 & H3). rewrite bind_returns.
  split; [now apply only_reports_on_app | auto].
Qed.

(** The end of a mismatch: reports on the sink only, and a verdict or
    the differ's panic. *)
Lemma diff_then_FailDiff_never_halts t description x y msgAndArgs :
  never_halts t (d <- diff x y ;; FailDiff t description d msgAndArgs).
Proof.
  destruct (diff_then_FailDiff t description x y msgAndArgs)
    as [(e & -> & Hr) | (err & Herr & ->)].
  - split; [now apply (only_reports_on_one t description)|].
    split; [left|]; simpl; eauto.
  - split; [apply only_reports_on_nil|]. split; [right; simpl; eauto|].
    intros Htotal. destruct (Htotal (udiff x y)) as (s & Hs). congruence.
Qed.

Lemma marshalJSON_only_reports t i msgAndArgs :
  exists l output,
    marshalJSON t i msgAndArgs = (l, Returns output) /\ only_reports_on t l.
Proof.
  pose proof (marshalJSON_reports_and_carries_on t i msgAndArgs) as Hm.
  destruct (json_MarshalIndent i "" "    ") as [output|err].
  - exists [], output. split; [exact Hm | apply only_reports_on_nil].
  - destruct Hm as (e & -> & Hr). exists [e], []. split; [reflexivity|].
    now apply (only_reports_on_one t _ e Hr).
Qed.

(** The assert forms of DeepEqual, DeepEqualJSON, MarshalsToJSON and
    LinesEqual never halt the test: whatever their inputs, every call
    they make is a report on the sink they were given, and they return
    their verdict, or panic when the differ fails; with a differ that
    answers every request they always return. *)
Theorem assert_forms_never_halt
    t expected actual (b : bytes) (s1 s2 : string) msgAndArgs :
  never_halts t (DeepEqual t expected actual msgAndArgs)
  /\ never_halts t (DeepEqualJSON t expected actual msgAndArgs)
  /\ never_halts t (MarshalsToJSON t b actual msgAndArgs)
  /\ never_halts t (LinesEqual t s1 s2 msgAndArgs).
Proof.
  split; [|split; [|split]].
  - unfold DeepEqual, interfaceDiff, interfaceDiff_texts.
    destruct (reflect_DeepEqual expected actual);
      [apply never_halts_ret | apply diff_then_FailDiff_never_halts].
  - unfold DeepEqualJSON.
    destruct (marshalJSON_only_reports t expected msgAndArgs)
      as (l1 & o1 & -> & Hl1).
    destruct (marshalJSON_only_reports t actual msgAndArgs)
      as (l2 & o2 & -> & Hl2).
    apply never_halts_bind; [exact Hl1|].
    apply never_halts_bind; [exact Hl2|].
    destruct (reflect_DeepEqual (decoded o1) (decoded o2));
      [apply never_halts_ret | apply diff_then_FailDiff_never_halts].
  - unfold MarshalsToJSON.
    destruct (marshalJSON_only_reports t actual msgAndArgs)
      as (l2 & o2 & -> & Hl2).
    apply never_halts_bind; [exact Hl2|].
    destruct (json_Unmarshal b) as [e|err].
    + destruct (reflect_DeepEqual e (decoded o2));
        [apply never_halts_ret | apply diff_then_FailDiff_never_halts].
    + destruct (Fail_reports_once t "Error unmarshaling expected JSON string"
                  msgAndArgs) as (e & -> & Hr).
      split; [now apply (only_reports_on_one t _ e Hr)|].
      split; [left|]; simpl; eauto.
  - unfold LinesEqual.
    destruct (String.eqb s1 s2);
      [apply never_halts_ret | apply diff_then_FailDiff_never_halts].
Qed.

End assert_extras.

Section json_extras.
Context `{GoLibrary}.
Import assert_part000.

(** A value passes MarshalsToJSON against its own encoding: when the
    value marshals to a text that decodes, to a generic value,
    MarshalsToJSON of that text and the value returns true and makes no
    call on the sink. *)
Theorem MarshalsToJSON_own_encoding t v msgAndArgs output d :
  json_MarshalIndent v "" "    " = inl output ->
  json_Unmarshal output = inl d ->
  json_generic d = true ->
  MarshalsToJSON t output v msgAndArgs = ([], Returns true).
Proof.
  intros Hm Hu Hg. unfold MarshalsToJSON.
  rewrite (marshalJSON_ok _ _ _ _ Hm), bind_ret_l, Hu.
  unfold decoded. rewrite Hu.
  now rewrite (reflect_DeepEqual_refl d (json_generic_reflexive d Hg)).
Qed.

(** When the expected bytes decode and the actual value marshals,
    MarshalsToJSON returns true, with no call on the sink, exactly when
    the decoded expected document and the decoded encoding of the value
    are deeply equal (the texts themselves are not compared); otherwise
    it makes one report described as "JSON representations differ" and
    returns false, unless the differ fails. *)
Theorem MarshalsToJSON_verdict t expected actual msgAndArgs e output :
  json_Unmarshal expected = inl e ->
  json_MarshalIndent actual "" "    " = inl output ->
  (MarshalsToJSON t expected actual msgAndArgs = ([], Returns true)
   <-> reflect_DeepEqual e (decoded output) = true)
  /\ (reflect_DeepEqual e (decoded output) = false ->
      (exists ev,
         MarshalsToJSON t expected actual msgAndArgs = ([ev], Returns false)
         /\ reports_failure t "JSON representations differ" ev)
      \/ (exists err,
            difflib_GetUnifiedDiffString
              (udiff (string_of_bytes expected) (string_of_bytes output))
            = inr err
            /\ MarshalsToJSON t expected actual msgAndArgs
               = ([], Panics ("Error producing diff: " +:+ err)))).
Proof.
  intros Hu Hm.
  assert (Hrun : MarshalsToJSON t expected actual msgAndArgs
                 = if reflect_DeepEqual e (decoded output) then ret true
                   else d <- diff (string_of_bytes expected) (string_of_bytes output) ;;
                        FailDiff t "JSON representations differ" d msgAndArgs).
  { unfold MarshalsToJSON.
    now rewrite (marshalJSON_ok _ _ _ _ Hm), bind_ret_l, Hu. }
  rewrite Hrun. destruct (reflect_DeepEqual e (decoded output)).
  - split; [split; reflexivity | discriminate].
  - pose proof (diff_then_FailDiff t "JSON representations differ"
                  (string_of_bytes expected) (string_of_bytes output)
                  msgAndArgs) as Hd.
    split; [|intros _; exact Hd].
    split; [|discriminate].
    intros Htrue.
    destruct Hd as [(ev & Hev & _) | (err & _ & Hev)];
      rewrite Hev in Htrue; discriminate Htrue.
Qed.

(** When both values marshal, DeepEqualJSON returns true, with no call
    on the sink, exactly when the decoded forms of the two encodings are
    deeply equal; otherwise it makes one report described as "JSON
    representations differ" and returns false, unless the differ
    fails. *)
Theorem DeepEqualJSON_verdict t expected actual msgAndArgs ej aj :
  json_MarshalIndent expected "" "    " = inl ej ->
  json_MarshalIndent actual "" "    " = inl aj ->
  (DeepEqualJSON t expected actual msgAndArgs = ([], Returns true)
   <-> reflect_DeepEqual (decoded ej) (decoded aj) = true)
  /\ (reflect_DeepEqual (decoded ej) (decoded aj) = false ->
      (exists ev,
         DeepEqualJSON t expected actual msgAndArgs = ([ev], Returns false)
         /\ reports_failure t "JSON representations differ" ev)
      \/ (exists err,
            difflib_GetUnifiedDiffString
              (udiff (string_of_bytes ej) (string_of_bytes aj)) = inr err
            /\ DeepEqualJSON t expected actual msgAndArgs
               = ([], Panics ("Error producing diff: " +:+ err)))).
Proof.
  intros He Ha.
  destruct (reflect_DeepEqual (decoded ej) (decoded aj)) eqn:Hd.
  - rewrite (DeepEqualJSON_decoded _ _ _ _ ej aj He Ha Hd).
    split; [split; reflexivity | discriminate].
  - rewrite (DeepEqualJSON_not_decoded _ _ _ _ ej aj He Ha Hd).
    pose proof (diff_then_FailDiff t "JSON representations differ"
                  (string_of_bytes ej) (string_of_bytes aj) msgAndArgs) as Hdf.
    split; [|intros _; exact Hdf].
    split; [|discriminate].
    intros Htrue.
    destruct Hdf as [(ev & Hev & _) | (err & _ & Hev)];
      rewrite Hev in Htrue; discriminate Htrue.
Qed.

End json_extras.

Section differ_extras.
Context `{GoLibrary}.
Import assert_part000.

(** The differ of src/unnamed/part_000 cannot tell a text from the same
    text with a final line feed: on either side, adding the line feed that
    a text lacks changes neither the request made to difflib nor the diff;
    and for a text and the same text with its line feed added, the two
    sides of the request are the same lines. *)
Theorem diff_ignores_missing_final_LF (s other : string) :
  HasSuffix s LF = false ->
  udiff (s +:+ LF) other = udiff s other
  /\ udiff other (s +:+ LF) = udiff other s
  /\ diff (s +:+ LF) other = diff s other
  /\ diff other (s +:+ LF) = diff other s
  /\ A (udiff s (s +:+ LF)) = B (udiff s (s +:+ LF)).
Proof.
  intros Hs.
  assert (Hs' : HasSuffix (s +:+ LF) LF = true)
    by (rewrite HasSuffix_LF; apply ends_with_LF_app).
  assert (H1 : udiff (s +:+ LF) other = udiff s other)
    by (unfold udiff; now rewrite Hs, Hs').
  assert (H2 : udiff other (s +:+ LF) = udiff other s)
    by (unfold udiff; now rewrite Hs, Hs').
  split; [exact H1|]. split; [exact H2|].
  split; [unfold diff; now rewrite H1|].
  split; [unfold diff; now rewrite H2|].
  unfold udiff. rewrite Hs, Hs'. reflexivity.
Qed.

End differ_extras.

Section html_extras.
Context `{GoLibrary}.
Import assert_part000.

(** Markup that parses passes HTMLEqual against itself in each of the
    accepted representations: as a string on both sides, as a string
    against its bytes, as a string against the tree it parses to, and as a
    selection against its outer markup; no call is made on the sink. *)
Theorem HTMLEqual_same_markup t s doc msgAndArgs :
  html_Parse s = inl doc ->
  HTMLEqual t (VString s) (VString s) msgAndArgs = ([], Returns true)
  /\ HTMLEqual t (VString s) (VBytes (bytes_of_string s)) msgAndArgs
     = ([], Returns true)
  /\ HTMLEqual t (VBytes (bytes_of_string s)) (VString s) msgAndArgs
     = ([], Returns true)
  /\ HTMLEqual t (VString s) (VNode (Some doc)) msgAndArgs = ([], Returns true)
  /\ (forall sel,
        goquery_OuterHtml sel = inl s ->
        HTMLEqual t (VSelection sel) (VString s) msgAndArgs = ([], Returns true)).
Proof.
  intros Hp.
  assert (Hb : string_of_bytes (bytes_of_string s) = s)
    by apply string_of_list_byte_of_string.
  assert (Hrun : forall expected actual,
            toHTMLNode expected = inl (Some doc) ->
            toHTMLNode actual = inl (Some doc) ->
            HTMLEqual t expected actual msgAndArgs = ([], Returns true)).
  { intros expected actual He Ha. unfold HTMLEqual. rewrite He, Ha.
    rewrite !bind_ret_l.
    change (reflect_DeepEqual (VNode (Some doc)) (VNode (Some doc)))
      with (Node_DeepEqual doc doc).
    now rewrite Node_DeepEqual_refl. }
  assert (Hs : toHTMLNode (VString s) = inl (Some doc))
    by (simpl; unfold Parse; now rewrite Hp).
  assert (Hy : toHTMLNode (VBytes (bytes_of_string s)) = inl (Some doc))
    by (simpl; rewrite Hb; unfold Parse; now rewrite Hp).
  repeat split; try (apply Hrun; auto).
  intros sel Hsel. apply Hrun; [|exact Hs].
  simpl. rewrite Hsel. unfold Parse. now rewrite Hp.
Qed.

(** When both inputs normalize to trees, HTMLEqual returns true, with no
    call on the sink, exactly when the trees are deeply equal; on two
    trees that differ it renders both, makes one report described as
    "HTML differs" and returns false, unless the differ fails; it does
    not halt the test. *)
Theorem HTMLEqual_verdict t expected actual msgAndArgs e a :
  toHTMLNode expected = inl (Some e) ->
  toHTMLNode actual = inl (Some a) ->
  (HTMLEqual t expected actual msgAndArgs = ([], Returns true)
   <-> Node_DeepEqual e a = true)
  /\ (Node_DeepEqual e a = false ->
      (exists ev,
         HTMLEqual t expected actual msgAndArgs = ([ev], Returns false)
         /\ reports_failure t "HTML differs" ev)
      \/ (exists err,
            difflib_GetUnifiedDiffString
              (udiff (html_Render e) (html_Render a)) = inr err
            /\ HTMLEqual t expected actual msgAndArgs
               = ([], Panics ("Error producing diff: " +:+ err)))).
Proof.
  intros He Ha.
  assert (Hrun : HTMLEqual t expected actual msgAndArgs
                 = if Node_DeepEqual e a then ret true
                   else d <- diff (html_Render e) (html_Render a) ;;
                        FailDiff t "HTML differs" d msgAndArgs).
  { unfold HTMLEqual. rewrite He, Ha, !bind_ret_l.
    change (reflect_DeepEqual (VNode (Some e)) (VNode (Some a)))
      with (Node_DeepEqual e a).
    destruct (Node_DeepEqual e a); [reflexivity|].
    cbn [negb Render]. now rewrite !bind_ret_l. }
  rewrite Hrun. destruct (Node_DeepEqual e a).
  - split; [split; reflexivity | discriminate].
  - pose proof (diff_then_FailDiff t "HTML differs" (html_Render e)
                  (html_Render a) msgAndArgs) as Hd.
    split; [|intros _; exact Hd].
    split; [|discriminate].
    intros Htrue.
    destruct Hd as [(ev & Hev & _) | (err & _ & Hev)];
      rewrite Hev in Htrue; discriminate Htrue.
Qed.

(** A typed-nil tree against a tree that is not nil is not reported as a
    difference: the trees are not deeply equal, and rendering the nil one
    panics before any call on the sink. *)
Theorem HTMLEqual_nil_against_tree_panics t other doc msgAndArgs :
  toHTMLNode other = inl (Some doc) ->
  HTMLEqual t (VNode None) other msgAndArgs
  = ([], Panics "runtime error: invalid memory address or nil pointer dereference")
  /\ HTMLEqual t other (VNode None) msgAndArgs
     = ([], Panics "runtime error: invalid memory address or nil pointer dereference").
Proof.
  intros Ho. unfold HTMLEqual.
  change (toHTMLNode (VNode None)) with (@inl (option Node) error None).
  rewrite Ho. split; reflexivity.
Qed.

End html_extras.

Section revision_extras.
Context `{GoLibrary}.

Lemma part001_Fail_reports_once t failureMessage msgAndArgs :
  exists e, assert_part001.Fail t failureMessage msgAndArgs = ([e], Returns false).
Proof.
  unfold assert_part001.Fail.
  destruct (testify_Fail_report failureMessage msgAndArgs) as [format args].
  eexists. reflexivity.
Qed.

Lemma part001_FailDiff_reports_once t failureMessage d msgAndArgs :
  exists e,
    assert_part001.FailDiff t failureMessage d msgAndArgs = ([e], Returns false).
Proof.
  unfold assert_part001.FailDiff. destruct (String.eqb d "").
  - apply part001_Fail_reports_once.
  - eexists. reflexivity.
Qed.

Lemma assert_go_FailDiff_reports_once t failureMessage d msgAndArgs :
  exists e,
    assert_go.FailDiff t failureMessage d msgAndArgs = ([e], Returns false).
Proof.
  unfold assert_go.FailDiff, assert_go.Fail. destruct (String.eqb d "").
  - destruct (testify_Fail_report failureMessage msgAndArgs) as [format args].
    eexists. reflexivity.
  - eexists. reflexivity.
Qed.

Lemma same_verdict_true : same_verdict (ret true) (ret true).
Proof. exists [], [], true. auto. Qed.

Lemma same_verdict_one (e e' : event) :
  same_verdict ([e], Returns false) ([e'], Returns false).
Proof. exists [e], [e'], false. auto. Qed.

Lemma same_verdict_bind {T} (l l' : list event) (a : T) (k k' : T -> run bool) :
  length l = length l' ->
  same_verdict (k a) (k' a) ->
  same_verdict (bind (l, Returns a) k) (bind (l', Returns a) k').
Proof.
  intros Hl (m & m' & verdict & Hk & Hk' & Hm).
  exists (l ++ m)%list, (l' ++ m')%list, verdict.
  rewrite !bind_returns, Hk, Hk'. simpl.
  repeat split. rewrite !length_app. lia.
Qed.

Lemma part000_mismatch_total t description x y msgAndArgs :
  differ_total ->
  exists e,
    (d <- assert_part000.diff x y ;;
     assert_part000.FailDiff t description d msgAndArgs)
    = ([e], Returns false).
Proof.
  intros Htotal. unfold assert_part000.diff.
  destruct (Htotal (assert_part000.udiff x y)) as (d & ->).
  rewrite bind_ret_l.
  destruct (FailDiff_reports_once t description d msgAndArgs) as (e & -> & _).
  eauto.
Qed.

Lemma part001_mismatch_total t description x y msgAndArgs :
  differ_total ->
  exists e,
    (d <- assert_part001.diff x y ;;
     assert_part001.FailDiff t description d msgAndArgs)
    = ([e], Returns false).
Proof.
  intros Htotal. unfold assert_part001.diff.
  destruct (Htotal (assert_part001.udiff x y)) as (d & ->).
  rewrite bind_ret_l. apply part001_FailDiff_reports_once.
Qed.

Lemma mismatch_same_verdict t description x y x' y' msgAndArgs :
  differ_total ->
  same_verdict
    (d <- assert_part001.diff x y ;;
     assert_part001.FailDiff t description d msgAndArgs)
    (d <- assert_part000.diff x' y' ;;
     assert_part000.FailDiff t description d msgAndArgs).
Proof.
  intros Htotal.
  destruct (part001_mismatch_total t description x y msgAndArgs Htotal) as (e & ->).
  destruct (part000_mismatch_total t description x' y' msgAndArgs Htotal) as (e' & ->).
  apply same_verdict_one.
Qed.

Lemma marshalJSON_revisions t i msgAndArgs :
  exists l l' output,
    assert_part001.marshalJSON t i msgAndArgs = (l, Returns output)
    /\ assert_part000.marshalJSON t i msgAndArgs = (l', Returns output)
    /\ length l = length l'.
Proof.
  unfold assert_part001.marshalJSON, assert_part000.marshalJSON.
  destruct (json_MarshalIndent i "" "    ") as [output|err].
  - exists [], [], output. auto.
  - destruct (part001_Fail_reports_once t
                ("Error marshaling JSON: " +:+ err +:+ LF) msgAndArgs) as (e & ->).
    destruct (Fail_reports_once t
                ("Error marshaling JSON: " +:+ err +:+ LF) msgAndArgs)
      as (e' & -> & _).
    exists [e], [e'], []. auto.
Qed.

(** The revisions agree on every verdict: with a differ that answers
    every request, each check of src/unnamed/part_001 and the check of the
    same name of src/unnamed/part_000 return the same boolean after the
    same number of calls on the sink, on all inputs, and so does DeepEqual
    of src/assert/assert.go; the revisions differ in the texts of their
    reports and in what they hand to the differ. *)
Theorem revisions_agree_on_verdicts
    t expected actual (b : bytes) (s1 s2 : string) msgAndArgs :
  differ_total ->
  same_verdict (assert_part001.DeepEqual t expected actual msgAndArgs)
               (assert_part000.DeepEqual t expected actual msgAndArgs)
  /\ same_verdict (assert_part001.DeepEqualJSON t expected actual msgAndArgs)
                  (assert_part000.DeepEqualJSON t expected actual msgAndArgs)
  /\ same_verdict (assert_part001.MarshalsToJSON t b actual msgAndArgs)
                  (assert_part000.MarshalsToJSON t b actual msgAndArgs)
  /\ same_verdict (assert_part001.LinesEqual t s1 s2 msgAndArgs)
                  (assert_part000.LinesEqual t s1 s2 msgAndArgs)
  /\ same_verdict (assert_go.DeepEqual t expected actual msgAndArgs)
                  (assert_part000.DeepEqual t expected actual msgAndArgs).
Proof.
  intros Htotal. split; [|split; [|split; [|split]]].
  - unfold assert_part001.DeepEqual, assert_part000.DeepEqual,
      assert_part001.interfaceDiff, assert_part000.interfaceDiff.
    destruct (reflect_DeepEqual expected actual); [apply same_verdict_true|].
    destruct (assert_part001.interfaceDiff_texts expected actual) as [x y].
    destruct (assert_part000.interfaceDiff_texts expected actual) as [x' y'].
    now apply mismatch_same_verdict.
  - unfold assert_part001.DeepEqualJSON, assert_part000.DeepEqualJSON.
    destruct (marshalJSON_revisions t expected msgAndArgs)
      as (l1 & l1' & o1 & -> & -> & Hl1).
    destruct (marshalJSON_revisions t actual msgAndArgs)
      as (l2 & l2' & o2 & -> & -> & Hl2).
    apply same_verdict_bind; [exact Hl1|].
    apply same_verdict_bind; [exact Hl2|].
    change (assert_part001.decoded) with (assert_part000.decoded).
    destruct (reflect_DeepEqual _ _); [apply same_verdict_true|].
    now apply mismatch_same_verdict.
  - unfold assert_part001.MarshalsToJSON, assert_part000.MarshalsToJSON.
    destruct (marshalJSON_revisions t actual msgAndArgs)
      as (l2 & l2' & o2 & -> & -> & Hl2).
    apply same_verdict_bind; [exact Hl2|].
    change (assert_part001.decoded) with (assert_part000.decoded).
    destruct (json_Unmarshal b) as [e|err].
    + destruct (reflect_DeepEqual _ _); [apply same_verdict_true|].
      now apply mismatch_same_verdict.
    + destruct (part001_Fail_reports_once t
                  "Error unmarshaling expected JSON string" msgAndArgs) as (e & ->).
      destruct (Fail_reports_once t
                  "Error unmarshaling expected JSON string" msgAndArgs)
        as (e' & -> & _).
      apply same_verdict_one.
  - unfold assert_part001.LinesEqual, assert_part000.LinesEqual.
    destruct (String.eqb s1 s2); [apply same_verdict_true|].
    now apply mismatch_same_verdict.
  - unfold assert_go.DeepEqual, assert_part000.DeepEqual,
      assert_go.interfaceDiff, assert_part000.interfaceDiff.
    destruct (reflect_DeepEqual expected actual); [apply same_verdict_true|].
    destruct (assert_go.interfaceDiff_texts expected actual) as [x y].
    destruct (assert_part000.interfaceDiff_texts expected actual) as [x' y'].
    unfold assert_go.diff.
    destruct (Htotal (assert_go.udiff x y)) as (d & ->). rewrite bind_ret_l.
    destruct (assert_go_FailDiff_reports_once t "Structs differ" d msgAndArgs)
      as (e & ->).
    destruct (part000_mismatch_total t "Structs differ" x' y' msgAndArgs Htotal)
      as (e' & ->).
    apply same_verdict_one.
Qed.

End revision_extras.

Section normalize_extras.
Import regexp.
#[local] Open Scope list_scope.

Lemma no_match_identity re repl s :
  no_match re s = true -> replace_from re repl 0 s = s.
Proof.
  induction s as [|c s IH]; [reflexivity|].
  cbn [no_match]. destruct (match_here re (c :: s)) eqn:Hm; [discriminate|].
  intros Hs. rewrite replace_from_no_match by exact Hm. now rewrite IH.
Qed.

Lemma no_match_app re u s : no_match re (u ++ s) = true -> no_match re s = true.
Proof.
  induction u as [|c u IH]; [auto|].
  change ((c :: u) ++ s) with (c :: (u ++ s)). cbn [no_match].
  destruct (match_here re (c :: u ++ s)); [discriminate | exact IH].
Qed.

(** A stretch of the output of the second pass that holds no opening
    parenthesis was copied from the input. *)
Lemma addr_pass_prefix u r s :
  Forall (fun c => c <> "("%char) u ->
  addr_pass s = u ++ r -> exists r', s = u ++ r' /\ addr_pass r' = r.
Proof.
  intros Hu. revert s. induction Hu as [|c u Hc _ IH]; intros s Hs.
  - exists s. auto.
  - destruct s as [|c0 s]; [discriminate Hs|].
    destruct (match_addRE_cases (c0 :: s)) as [Hm | (h & r0 & Heq & Hh)].
    + unfold addr_pass in Hs. rewrite replace_from_no_match in Hs by exact Hm.
      injection Hs as -> Hs. destruct (IH s Hs) as (r' & -> & Hr).
      exists r'. auto.
    + rewrite Heq, (addr_pass_annotation h r0 Hh) in Hs.
      injection Hs as Hs _. now destruct Hc.
Qed.

(** A stretch of the output of the first pass that holds no [c] was
    copied from the input. *)
Lemma cap_pass_prefix u r s :
  Forall (fun c => c <> "c"%char) u ->
  cap_pass s = u ++ r -> exists r', s = u ++ r' /\ cap_pass r' = r.
Proof.
  intros Hu. revert s. induction Hu as [|c u Hc _ IH]; intros s Hs.
  - exists s. auto.
  - destruct s as [|c0 s]; [discriminate Hs|].
    destruct (match_capRE_cases (c0 :: s)) as [Hm | (d & r0 & Heq & Hd)].
    + unfold cap_pass in Hs. rewrite replace_from_no_match in Hs by exact Hm.
      injection Hs as -> Hs. destruct (IH s Hs) as (r' & -> & Hr).
      exists r'. auto.
    + rewrite Heq, (cap_pass_annotation d r0 Hd) in Hs.
      injection Hs as Hs _. now destruct Hc.
Qed.

Lemma hex_body_no_open_paren h :
  forallb lower_hex h = true ->
  Forall (fun c => c <> "("%char) (chars "0x" ++ h ++ chars ")").
Proof.
  intros Hh. repeat constructor; try discriminate.
  apply Forall_app. split; [now apply hex_no_open_paren|].
  repeat constructor. discriminate.
Qed.

Lemma cap_body_no_start d :
  forallb digit d = true ->
  Forall (fun c => c <> "("%char /\ c <> "c"%char) (chars "ap=" ++ d ++ chars ")").
Proof.
  intros Hd. repeat constructor; try discriminate.
  apply Forall_app. split; [now apply digits_no_start|].
  repeat constructor; discriminate.
Qed.

(** A match in the output of a pass that starts at a copied byte was a
    match in the input. *)
Lemma addr_match_after_addr_pass c s n :
  match_here assert_go.addRE (c :: addr_pass s) = Some n ->
  exists m, match_here assert_go.addRE (c :: s) = Some m.
Proof.
  intros Hm. apply match_addRE in Hm as (h & r & Heq & Hh & _).
  unfold addr_annotation in Heq. rewrite <- !app_assoc in Heq. simpl in Heq.
  injection Heq as -> Heq.
  destruct (addr_pass_prefix (chars "0x" ++ h ++ chars ")") r s) as (r' & -> & _).
  - apply hex_body_no_open_paren. apply Hh.
  - rewrite <- !app_assoc. exact Heq.
  - exists (4 + length h)%nat. apply match_addRE. exists h, r'.
    unfold addr_annotation. rewrite <- !app_assoc. auto.
Qed.

Lemma cap_match_after_cap_pass c s n :
  match_here assert_go.capRE (c :: cap_pass s) = Some n ->
  exists m, match_here assert_go.capRE (c :: s) = Some m.
Proof.
  intros Hm. apply match_capRE in Hm as (d & r & Heq & Hd & _).
  unfold cap_annotation in Heq. rewrite <- !app_assoc in Heq. simpl in Heq.
  injection Heq as -> Heq.
  destruct (cap_pass_prefix (chars "ap=" ++ d ++ chars ")") r s) as (r' & -> & _).
  - eapply Forall_impl; [apply cap_body_no_start, Hd|]. simpl. tauto.
  - rewrite <- !app_assoc. exact Heq.
  - exists (5 + length d)%nat. apply match_capRE. exists d, r'.
    unfold cap_annotation. rewrite <- !app_assoc. auto.
Qed.

Lemma cap_match_after_addr_pass c s n :
  match_here assert_go.capRE (c :: addr_pass s) = Some n ->
  exists m, match_here assert_go.capRE (c :: s) = Some m.
Proof.
  intros Hm. apply match_capRE in Hm as (d & r & Heq & Hd & _).
  unfold cap_annotation in Heq. rewrite <- !app_assoc in Heq. simpl in Heq.
  injection Heq as -> Heq.
  destruct (addr_pass_prefix (chars "ap=" ++ d ++ chars ")") r s) as (r' & -> & _).
  - eapply Forall_impl; [apply cap_body_no_start, Hd|]. simpl. tauto.
  - rewrite <- !app_assoc. exact Heq.
  - exists (5 + length d)%nat. apply match_capRE. exists d, r'.
    unfold cap_annotation. rewrite <- !app_assoc. auto.
Qed.

(** No match starts inside a placeholder. *)
Lemma no_match_addRE_addRepl s :
  no_match assert_go.addRE (chars assert_go.addRepl ++ s)
  = no_match assert_go.addRE s.
Proof. reflexivity. Qed.

Lemma no_match_capRE_capRepl s :
  no_match assert_go.capRE (chars assert_go.capRepl ++ s)
  = no_match assert_go.capRE s.
Proof. reflexivity. Qed.

Lemma no_match_capRE_addRepl s :
  no_match assert_go.capRE (chars assert_go.addRepl ++ s)
  = no_match assert_go.capRE s.
Proof. reflexivity. Qed.

(** After the second pass no address annotation is left. *)
Lemma addr_pass_no_match n s :
  (length s <= n)%nat -> no_match assert_go.addRE (addr_pass s) = true.
Proof.
  revert s. induction n as [|n IH]; intros s Hlen.
  { destruct s; [reflexivity | simpl in Hlen; lia]. }
  destruct s as [|c s]; [reflexivity|].
  destruct (match_addRE_cases (c :: s)) as [Hm | (h & r & Heq & Hh)].
  - unfold addr_pass. rewrite replace_from_no_match by exact Hm.
    fold (addr_pass s). cbn [no_match].
    destruct (match_here assert_go.addRE (c :: addr_pass s)) as [k|] eqn:Hk.
    + apply addr_match_after_addr_pass in Hk as (m & Hk). congruence.
    + apply IH. simpl in Hlen. lia.
  - rewrite Heq, (addr_pass_annotation h r Hh), no_match_addRE_addRepl.
    apply IH.
    assert (Hl : length (c :: s) = length (addr_annotation h ++ r))
      by now rewrite Heq.
    rewrite length_app, addr_annotation_length in Hl. simpl in Hl, Hlen. lia.
Qed.

(** After the first pass no capacity annotation is left. *)
Lemma cap_pass_no_match n s :
  (length s <= n)%nat -> no_match assert_go.capRE (cap_pass s) = true.
Proof.
  revert s. induction n as [|n IH]; intros s Hlen.
  { destruct s; [reflexivity | simpl in Hlen; lia]. }
  destruct s as [|c s]; [reflexivity|].
  destruct (match_capRE_cases (c :: s)) as [Hm | (d & r & Heq & Hd)].
  - unfold cap_pass. rewrite replace_from_no_match by exact Hm.
    fold (cap_pass s). cbn [no_match].
    destruct (match_here assert_go.capRE (c :: cap_pass s)) as [k|] eqn:Hk.
    + apply cap_match_after_cap_pass in Hk as (m & Hk). congruence.
    + apply IH. simpl in Hlen. lia.
  - rewrite Heq, (cap_pass_annotation d r Hd), no_match_capRE_capRepl.
    apply IH.
    assert (Hl : length (c :: s) = length (cap_annotation d ++ r))
      by now rewrite Heq.
    rewrite length_app, cap_annotation_length in Hl. simpl in Hl, Hlen. lia.
Qed.

(** The second pass brings no capacity annotation back. *)
Lemma addr_pass_keeps_no_cap n s :
  (length s <= n)%nat ->
  no_match assert_go.capRE s = true ->
  no_match assert_go.capRE (addr_pass s) = true.
Proof.
  revert s. induction n as [|n IH]; intros s Hlen Hs.
  { destruct s; [reflexivity | simpl in Hlen; lia]. }
  destruct s as [|c s]; [reflexivity|].
  destruct (match_addRE_cases (c :: s)) as [Hm | (h & r & Heq & Hh)].
  - unfold addr_pass. rewrite replace_from_no_match by exact Hm.
    fold (addr_pass s). cbn [no_match] in *.
    destruct (match_here assert_go.capRE (c :: s)) as [k|] eqn:Hc;
      [discriminate Hs|].
    destruct (match_here assert_go.capRE (c :: addr_pass s)) as [k|] eqn:Hk.
    + apply cap_match_after_addr_pass in Hk as (m & Hk). congruence.
    + apply IH; [simpl in Hlen; lia | exact Hs].
  - rewrite Heq in Hs. apply no_match_app in Hs.
    rewrite Heq, (addr_pass_annotation h r Hh), no_match_capRE_addRepl.
    apply IH; [|exact Hs].
    assert (Hl : length (c :: s) = length (addr_annotation h ++ r))
      by now rewrite Heq.
    rewrite length_app, addr_annotation_length in Hl. simpl in Hl, Hlen. lia.
Qed.

(** The normalization of src/assert/assert.go leaves no volatile
    annotation: in a normalized dump no match of [capRE] and no match of
    [addRE] starts anywhere; so normalizing a normalized dump changes
    nothing. *)
Theorem normalize_leaves_no_annotation (dump : string) :
  no_match assert_go.capRE (chars (assert_go.normalize dump)) = true
  /\ no_match assert_go.addRE (chars (assert_go.normalize dump)) = true
  /\ assert_go.normalize (assert_go.normalize dump) = assert_go.normalize dump.
Proof.
  rewrite !normalize_passes.
  set (o := addr_pass (cap_pass (chars dump))).
  assert (Hchars : chars (string_of_list_ascii o) = o)
    by apply list_ascii_of_string_of_list_ascii.
  assert (Hcap : no_match assert_go.capRE o = true).
  { apply (addr_pass_keeps_no_cap (length (cap_pass (chars dump)))); [lia|].
    apply (cap_pass_no_match (length (chars dump))). lia. }
  assert (Haddr : no_match assert_go.addRE o = true).
  { apply (addr_pass_no_match (length (cap_pass (chars dump)))). lia. }
  rewrite Hchars. split; [exact Hcap|]. split; [exact Haddr|].
  f_equal. unfold cap_pass at 1.
  rewrite (no_match_identity _ _ o Hcap).
  unfold addr_pass at 1. apply (no_match_identity _ _ o Haddr).
Qed.

End normalize_extras.

Section loud_extras.
Context `{GoLibrary}.
Import assert_part000.

Lemma loud_true t : loud t (ret true).
Proof. apply only_reports_on_nil. Qed.

Lemma loud_mismatch t description x y msgAndArgs :
  loud t (d <- diff x y ;; FailDiff t description d msgAndArgs).
Proof.
  destruct (diff_then_FailDiff t description x y msgAndArgs)
    as [(e & -> & Hr) | (err & _ & ->)].
  - split; [discriminate | now apply (only_reports_on_one t description)].
  - apply only_reports_on_nil.
Qed.

Lemma loud_Fail t description msgAndArgs :
  loud t (Fail t description msgAndArgs).
Proof.
  destruct (Fail_reports_once t description msgAndArgs) as (e & -> & Hr).
  split; [discriminate | now apply (only_reports_on_one t description)].
Qed.

Lemma loud_bind {T} t (l : list event) (a : T) (k : T -> run bool) :
  only_reports_on t l -> loud t (k a) -> loud t (bind (l, Returns a) k).
Proof.
  intros Hl Hk. rewrite bind_returns.
  destruct (k a) as [l2 [[|]| |msg]]; simpl in *.
  - now apply only_reports_on_app.
  - destruct Hk as [Hne Hl2]. split; [|now apply only_reports_on_app].
    intros Happ. apply app_eq_nil in Happ as [_ ?]. contradiction.
  - destruct Hk as (l' & -> & Hne & Hl').
    exists (l ++ l')%list. rewrite app_assoc.
    split; [reflexivity|]. split; [|now apply only_reports_on_app].
    intros Happ. apply app_eq_nil in Happ as [_ ?]. contradiction.
  - now apply only_reports_on_app.
Qed.

Lemma loud_HTMLEqual t expected actual msgAndArgs :
  loud t (HTMLEqual t expected actual msgAndArgs).
Proof.
  assert (Habort : forall format err,
            exists l', [EvErrorf t format [err]; EvFailNow t]
                       = (l' ++ [EvFailNow t])%list
                       /\ l' <> [] /\ only_reports_on t l').
  { intros format err. exists [EvErrorf t format [err]].
    split; [reflexivity|]. split; [discriminate|].
    repeat constructor. eauto. }
  unfold HTMLEqual.
  destruct (toHTMLNode expected) as [e|err]; [|apply Habort].
  rewrite bind_ret_l.
  destruct (toHTMLNode actual) as [a|err]; [|apply Habort].
  rewrite bind_ret_l.
  destruct (reflect_DeepEqual (VNode e) (VNode a)); [apply loud_true|].
  cbn [negb].
  destruct e as [e|]; [|apply only_reports_on_nil].
  cbn [Render]. rewrite bind_ret_l.
  destruct a as [a|]; [|apply only_reports_on_nil].
  cbn [Render]. rewrite bind_ret_l.
  apply loud_mismatch.
Qed.

Lemma loud_escalate t (c : run bool) :
  loud t c ->
  loud_require t (ok <- c ;; if negb ok then FailNow t else ret tt).
Proof.
  intros Hc. rewrite escalate_run.
  destruct c as [l [[|]| |msg]]; simpl in *; auto.
  destruct Hc as [Hne Hl]. exists l. auto.
Qed.

(** No check fails in silence.  Whatever the inputs, when an assert form
    of src/unnamed/part_000 returns false it has made at least one report
    on its sink, and every call it made is such a report; when HTMLEqual
    or a require form of src/unnamed/part_002 halts the test, its last
    call is the [FailNow] of the sink and at least one report on the sink
    comes before it. *)
Theorem checks_never_fail_silently
    t expected actual (b : bytes) (s1 s2 : string) msgAndArgs :
  (loud t (DeepEqual t expected actual msgAndArgs)
   /\ loud t (DeepEqualJSON t expected actual msgAndArgs)
   /\ loud t (MarshalsToJSON t b actual msgAndArgs)
   /\ loud t (LinesEqual t s1 s2 msgAndArgs)
   /\ loud t (HTMLEqual t expected actual msgAndArgs))
  /\ (loud_require t (require_part002.DeepEqual t expected actual msgAndArgs)
      /\ loud_require t (require_part002.DeepEqualJSON t expected actual msgAndArgs)
      /\ loud_require t (require_part002.MarshalsToJSON t b actual msgAndArgs)
      /\ loud_require t (require_part002.LinesEqual t s1 s2 msgAndArgs)
      /\ loud_require t (require_part002.HTMLEqual t expected actual msgAndArgs)).
Proof.
  assert (H1 : loud t (DeepEqual t expected actual msgAndArgs)).
  { unfold DeepEqual, interfaceDiff, interfaceDiff_texts.
    destruct (reflect_DeepEqual expected actual);
      [apply loud_true | apply loud_mismatch]. }
  assert (H2 : loud t (DeepEqualJSON t expected actual msgAndArgs)).
  { unfold DeepEqualJSON.
    destruct (marshalJSON_only_reports t expected msgAndArgs)
      as (l1 & o1 & -> & Hl1).
    destruct (marshalJSON_only_reports t actual msgAndArgs)
      as (l2 & o2 & -> & Hl2).
    apply loud_bind; [exact Hl1|]. apply loud_bind; [exact Hl2|].
    destruct (reflect_DeepEqual (decoded o1) (decoded o2));
      [apply loud_true | apply loud_mismatch]. }
  assert (H3 : loud t (MarshalsToJSON t b actual msgAndArgs)).
  { unfold MarshalsToJSON.
    destruct (marshalJSON_only_reports t actual msgAndArgs)
      as (l2 & o2 & -> & Hl2).
    apply loud_bind; [exact Hl2|].
    destruct (json_Unmarshal b) as [e|err]; [|apply loud_Fail].
    destruct (reflect_DeepEqual e (decoded o2));
      [apply loud_true | apply loud_mismatch]. }
  assert (H4 : loud t (LinesEqual t s1 s2 msgAndArgs)).
  { unfold LinesEqual.
    destruct (String.eqb s1 s2); [apply loud_true | apply loud_mismatch]. }
  pose proof (loud_HTMLEqual t expected actual msgAndArgs) as H5.
  split; [auto 6|].
  repeat split; apply loud_escalate; assumption.
Qed.

End loud_extras.

(** * The properties on concrete values *)


(** C6 at the bytes of "{not json". *)
Lemma MarshalsToJSON_not_json :
  exists e,
    reports_failure (H := standin.lib) the_test
      "Error unmarshaling expected JSON string" e
    /\ forall actual,
         assert_part000.MarshalsToJSON (H := standin.lib) the_test
           (bytes_of_string "{not json") actual []
         = (((assert_part000.marshalJSON (H := standin.lib) the_test actual []).1
               ++ [e])%list, Returns false).
Proof.
  apply (MarshalsToJSON_invalid_expected (H := standin.lib) the_test
           (bytes_of_string "{not json") []
           "invalid character looking for beginning of value").
  reflexivity.
Defined.

(** C2 at DeepEqualJSON(make(chan int), nil). *)
Lemma DeepEqualJSON_chan_nil_returns_true :
  exists e,
    reports_failure (H := standin.lib) the_test
      ("Error marshaling JSON: " +:+ "json: unsupported type: chan int" +:+ LF) e
    /\ assert_part000.DeepEqualJSON (H := standin.lib) the_test a_chan VNil []
       = ([e], Returns true).
Proof.
  apply (DeepEqualJSON_true_after_marshal_error (H := standin.lib) the_test
           a_chan VNil [] "json: unsupported type: chan int"
           "unexpected end of JSON input" [] (bytes_of_string "null"));
    reflexivity.
Defined.

(** C7 at the require form of DeepEqualJSON(make(chan int), 1). *)
Lemma require_DeepEqualJSON_chan_one :
  exists e1 e2,
    reports_failure (H := standin.lib) the_test
      ("Error marshaling JSON: " +:+ "json: unsupported type: chan int" +:+ LF) e1
    /\ reports_failure (H := standin.lib) the_test "JSON representations differ" e2
    /\ require_part002.DeepEqualJSON (H := standin.lib) the_test a_chan (VInt 1) []
       = ([e1; e2; EvFailNow the_test], Halts).
Proof.
  eapply (require_DeepEqualJSON_reports_twice (H := standin.lib) the_test
            a_chan (VInt 1) [] "json: unsupported type: chan int"
            "unexpected end of JSON input" (bytes_of_string "1"));
    reflexivity.
Defined.

(** C8 at the map {"a":1,"b":2} built in the two orders. *)
Lemma DeepEqualJSON_map_ab_ba :
  assert_part000.DeepEqualJSON (H := standin.lib) the_test map_ab map_ba []
  = ([], Returns true).
Proof.
  pose proof (DeepEqualJSON_ignores_key_order (H := standin.lib) the_test [])
    as [_ Horder].
  eapply (Horder [("a", VInt 1); ("b", VInt 2)] [("b", VInt 2); ("a", VInt 1)]).
  - apply NoDup_cons. split; [|apply NoDup_singleton].
    intros Hin. apply list_elem_of_singleton in Hin. discriminate Hin.
  - apply perm_swap.
  - reflexivity.
  - reflexivity.
Defined.

(** C8, refuted as stated: a map that holds a channel has no JSON
    encoding; built in the two orders, it makes DeepEqualJSON report
    twice, so the check does not pass. *)
Lemma DeepEqualJSON_channel_map_reports :
  length (assert_part000.DeepEqualJSON (H := standin.lib) the_test
            chan_map_ab chan_map_ba []).1 = 2%nat
  /\ json_MarshalIndent (GoLibrary := standin.lib) chan_map_ab "" "    "
     = inr "json: unsupported type: chan int".
Proof. split; reflexivity. Qed.

(** C5, refuted as stated: DeepEqual(v, v) fails for a func value and
    for a NaN. *)
Lemma DeepEqual_fails_on_func_and_NaN :
  (assert_part000.DeepEqual (H := standin.lib) the_test a_func a_func []).2
  = Returns false
  /\ (assert_part000.DeepEqual (H := standin.lib) the_test a_NaN a_NaN []).2
     = Returns false
  /\ length (assert_part000.DeepEqual (H := standin.lib) the_test a_func a_func []).1
     = 1%nat.
Proof. vm_compute. repeat split; reflexivity. Qed.

(** C5 at two equal integers, at two different ones, and at the two
    rings. *)
Lemma DeepEqual_on_integers :
  assert_part000.DeepEqual (H := standin.lib) the_test (VInt 1) (VInt 1) []
  = ([], Returns true)
  /\ (exists e,
        assert_part000.DeepEqual (H := standin.lib) the_test (VInt 1) (VInt 2) []
        = ([e], Returns false)
        /\ reports_failure (H := standin.lib) the_test "Structs differ" e)
  /\ assert_part000.DeepEqual (H := standin.lib) the_test ring_one ring_one []
     = ([], Returns true)
  /\ assert_part000.DeepEqual (H := standin.lib) the_test ring_one ring_two []
     = ([], Returns true).
Proof.
  destruct (DeepEqual_iff_reflect_DeepEqual (H := standin.lib)
              the_test (VInt 1) (VInt 1) []) as (_ & Hrefl & Hlink & _).
  destruct (DeepEqual_iff_reflect_DeepEqual (H := standin.lib)
              the_test (VInt 1) (VInt 2) []) as (_ & _ & _ & Hdiff).
  split; [apply Hrefl; reflexivity|]. split.
  - destruct (Hdiff eq_refl _ eq_refl) as (e & Hrun & Hrep & _).
    exists e. split; assumption.
  - destruct (Hlink ring_mem (Some 1%Z) ring_mem (Some 3%Z))
      as (Hself & b & Hb & Hiff).
    split; [exact Hself|]. apply Hiff.
    vm_compute in Hb. now injection Hb as <-.
Defined.

(** C3, refuted as stated: the differ of src/assert/assert.go hands the
    text "a" over as the one line "a", with no line feed. *)
Lemma assert_go_diff_does_not_terminate :
  A (assert_go.udiff "a" "b") = ["a"]
  /\ A (spec_udiff "a" "b") = ["a" +:+ LF; ""].
Proof. split; reflexivity. Qed.

(** The dumps of the two pointers differ in the address only. *)
Lemma pointer_dumps_volatile_eq :
  volatile_eq (chars (spew_Sdump (GoLibrary := standin.lib) assert_go.scs ptr_one))
              (chars (spew_Sdump (GoLibrary := standin.lib) assert_go.scs ptr_two)).
Proof.
  change (volatile_eq
            (chars "(*float64)"
               ++ addr_annotation (chars "c000012345")
               ++ chars ("((float64) NaN)" +:+ LF))%list
            (chars "(*float64)"
               ++ addr_annotation (chars "c000067890")
               ++ chars ("((float64) NaN)" +:+ LF))%list).
  cbn [chars list_ascii_of_string app].
  do 10 apply volatile_eq_byte.
  apply volatile_eq_addr.
  - split; [simpl; lia | reflexivity].
  - split; [simpl; lia | reflexivity].
  - apply volatile_eq_refl.
Qed.

(** C1 at the two pointers, in src/assert/assert.go: one text for
    both. *)
Lemma assert_go_interfaceDiff_pointers :
  (assert_go.interfaceDiff_texts (H := standin.lib) ptr_one ptr_two).1
  = (assert_go.interfaceDiff_texts (H := standin.lib) ptr_one ptr_two).2.
Proof.
  destruct (interfaceDiff_normalizes_dumps (H := standin.lib) ptr_one ptr_two)
    as (_ & Heq & _).
  exact (Heq pointer_dumps_volatile_eq).
Defined.

(** C1, refuted as stated: in src/unnamed/part_000 the two dumps reach
    the differ with their addresses, as two different texts. *)
Lemma part000_interfaceDiff_keeps_addresses :
  volatile_eq
    (chars (spew_Sdump (GoLibrary := standin.lib) assert_part000.scs ptr_one))
    (chars (spew_Sdump (GoLibrary := standin.lib) assert_part000.scs ptr_two))
  /\ reflect_DeepEqual ptr_one ptr_two = false
  /\ assert_part000.interfaceDiff_texts (H := standin.lib) ptr_one ptr_two
     = ("(*float64)(0xc000012345)((float64) NaN)" +:+ LF,
        "(*float64)(0xc000067890)((float64) NaN)" +:+ LF)
  /\ String.eqb
       (assert_part000.interfaceDiff_texts (H := standin.lib) ptr_one ptr_two).1
       (assert_part000.interfaceDiff_texts (H := standin.lib) ptr_one ptr_two).2
     = false.
Proof.
  split; [exact pointer_dumps_volatile_eq|]. repeat split; reflexivity.
Qed.

(** * The further properties on concrete values *)

Lemma standin_differ_total : differ_total (H := standin.lib).
Proof.
  intros d. simpl. unfold standin.GetUnifiedDiffString.
  destruct (list_eqb String.eqb (A d) (B d)); eauto.
Qed.

(** The failure reporter on a diff and a message. *)
Lemma FailDiff_on_a_diff :
  exists format args,
    assert_part000.FailDiff (H := standin.lib) the_test "Strings differ"
      "-a" [VString "see above"]
    = ([EvErrorf the_test format args], Returns false)
    /\ contains format
         (indentMessageLines (GoLibrary := standin.lib) "-a" 3)
    /\ contains format "see above".
Proof.
  destruct (FailDiff_reports_and_returns (H := standin.lib) the_test
              "Strings differ" "-a" [VString "see above"])
    as ((format & args & Hrun & _ & Hdiff & Hmsg) & _).
  exists format, args. split; [exact Hrun|]. split.
  - apply Hdiff. discriminate.
  - apply Hmsg; discriminate.
Defined.

(** LinesEqual on two different texts. *)
Lemma LinesEqual_on_two_texts :
  exists e,
    assert_part000.LinesEqual (H := standin.lib) the_test "a" "b" []
    = ([e], Returns false)
    /\ reports_failure (H := standin.lib) the_test "Strings differ" e.
Proof.
  destruct (LinesEqual_iff_equal (H := standin.lib) the_test "a" "b" [])
    as (_ & _ & Hne).
  destruct Hne as [Hrep | (err & Herr & _)]; [discriminate | exact Hrep|].
  discriminate Herr.
Defined.

(** DeepEqual returns under the stand-in differ. *)
Lemma DeepEqual_returns_under_standin :
  exists verdict,
    (assert_part000.DeepEqual (H := standin.lib) the_test (VInt 1) (VInt 2) []).2
    = Returns verdict.
Proof.
  destruct (assert_forms_never_halt (H := standin.lib) the_test (VInt 1) (VInt 2)
              [] "" "" []) as ((_ & _ & Hret) & _).
  exact (Hret standin_differ_total).
Defined.

(** The boolean true against its encoding. *)
Lemma MarshalsToJSON_true_own_encoding :
  assert_part000.MarshalsToJSON (H := standin.lib) the_test
    (bytes_of_string "true") (VBool true) []
  = ([], Returns true).
Proof.
  apply (MarshalsToJSON_own_encoding (H := standin.lib) the_test (VBool true) []
           (bytes_of_string "true") (VBool true)); reflexivity.
Defined.

(** The document [true] against the value false. *)
Lemma MarshalsToJSON_true_against_false :
  exists ev,
    assert_part000.MarshalsToJSON (H := standin.lib) the_test
      (bytes_of_string "true") (VBool false) []
    = ([ev], Returns false)
    /\ reports_failure (H := standin.lib) the_test "JSON representations differ" ev.
Proof.
  destruct (MarshalsToJSON_verdict (H := standin.lib) the_test
              (bytes_of_string "true") (VBool false) [] (VBool true)
              (bytes_of_string "false") eq_refl eq_refl) as (_ & Hne).
  destruct (Hne eq_refl) as [Hrep | (err & Herr & _)]; [exact Hrep|].
  discriminate Herr.
Defined.

(** DeepEqualJSON on true and false. *)
Lemma DeepEqualJSON_true_against_false :
  exists ev,
    assert_part000.DeepEqualJSON (H := standin.lib) the_test
      (VBool true) (VBool false) []
    = ([ev], Returns false)
    /\ reports_failure (H := standin.lib) the_test "JSON representations differ" ev.
Proof.
  destruct (DeepEqualJSON_verdict (H := standin.lib) the_test
              (VBool true) (VBool false) []
              (bytes_of_string "true") (bytes_of_string "false")
              eq_refl eq_refl) as (_ & Hne).
  destruct (Hne eq_refl) as [Hrep | (err & Herr & _)]; [exact Hrep|].
  discriminate Herr.
Defined.

(** The differ on "a" and on "a" with its line feed. *)
Lemma diff_of_a_with_and_without_LF :
  assert_part000.udiff ("a" +:+ LF) "b" = assert_part000.udiff "a" "b"
  /\ A (assert_part000.udiff "a" ("a" +:+ LF))
     = B (assert_part000.udiff "a" ("a" +:+ LF)).
Proof.
  destruct (diff_ignores_missing_final_LF (H := standin.lib) "a" "b" eq_refl)
    as (H1 & _ & _ & _ & H5).
  split; [exact H1 | exact H5].
Defined.

(** HTMLEqual on a paragraph, as a string and as bytes. *)
Lemma HTMLEqual_paragraph_string_and_bytes :
  assert_part000.HTMLEqual (H := standin.lib) the_test
    (VString "<p>hi</p>") (VBytes (bytes_of_string "<p>hi</p>")) []
  = ([], Returns true).
Proof.
  destruct (HTMLEqual_same_markup (H := standin.lib) the_test "<p>hi</p>"
              (HNode DocumentNode "" [] [HNode TextNode "<p>hi</p>" [] []])
              [] eq_refl) as (_ & Hbytes & _).
  exact Hbytes.
Defined.

(** HTMLEqual on two different paragraphs. *)
Lemma HTMLEqual_two_paragraphs :
  exists ev,
    assert_part000.HTMLEqual (H := standin.lib) the_test
      (VString "<p>hi</p>") (VString "<p>bye</p>") []
    = ([ev], Returns false)
    /\ reports_failure (H := standin.lib) the_test "HTML differs" ev.
Proof.
  destruct (HTMLEqual_verdict (H := standin.lib) the_test
              (VString "<p>hi</p>") (VString "<p>bye</p>") []
              (HNode DocumentNode "" [] [HNode TextNode "<p>hi</p>" [] []])
              (HNode DocumentNode "" [] [HNode TextNode "<p>bye</p>" [] []])
              eq_refl eq_refl) as (_ & Hne).
  destruct (Hne eq_refl) as [Hrep | (err & Herr & _)]; [exact Hrep|].
  discriminate Herr.
Defined.

(** HTMLEqual on a typed-nil tree and a paragraph. *)
Lemma HTMLEqual_nil_against_paragraph :
  assert_part000.HTMLEqual (H := standin.lib) the_test
    (VNode None) (VString "<p>hi</p>") []
  = ([], Panics "runtime error: invalid memory address or nil pointer dereference").
Proof.
  destruct (HTMLEqual_nil_against_tree_panics (H := standin.lib) the_test
              (VString "<p>hi</p>")
              (HNode DocumentNode "" [] [HNode TextNode "<p>hi</p>" [] []])
              [] eq_refl) as (Hrun & _).
  exact Hrun.
Defined.

(** The two revisions on LinesEqual of "a" and "b". *)
Lemma revisions_agree_on_LinesEqual :
  same_verdict
    (assert_part001.LinesEqual (H := standin.lib) the_test "a" "b" [])
    (assert_part000.LinesEqual (H := standin.lib) the_test "a" "b" []).
Proof.
  destruct (revisions_agree_on_verdicts (H := standin.lib) the_test
              VNil VNil [] "a" "b" [] standin_differ_total)
    as (_ & _ & _ & Hlines & _).
  exact Hlines.
Defined.
